(** * DnsLibs: the proxied socket, the upstream base class and DNS64 synthesis

    A shallow embedding of

    - [src/net/proxied_socket.cpp]   ([ProxiedSocket]),
    - [src/upstream/include/dns/upstream/upstream.h]   ([Upstream]),
    - the address synthesis exercised by [src/proxy/test/dns64_test.cpp],

    and the properties of the specification that concern them. *)

From Stdlib Require Import ZArith List Lia Bool String.
From stdpp Require Import base option list.
Import ListNotations.

Local Open Scope Z_scope.

(** ** Shared vocabulary *)

(** [std::chrono::microseconds], [std::chrono::milliseconds] and the ticks of
    the steady clock are signed 64-bit counts.  Their sums and differences
    are those of the machine: a result that does not fit wraps around modulo
    2^64, as the two's-complement targets of the library compute it. *)
Definition Micros : Type := Z.
Definition Millis : Type := Z.

Definition INT64_MIN : Z := -9223372036854775808.
Definition INT64_MAX : Z := 9223372036854775807.

Definition in_int64 (z : Z) : Prop := INT64_MIN <= z <= INT64_MAX.

(** The 64-bit signed value of an integer. *)
Definition wrap64 (z : Z) : Z :=
  (z + 9223372036854775808) mod 18446744073709551616 - 9223372036854775808.
Arguments wrap64 : simpl never.

(** A reading of [SteadyClock::now()], in ticks of the steady clock
    (nanoseconds on the supported standard libraries). *)
Definition TimePoint : Type := Z.

(** [std::chrono::duration_cast<Micros>] of a difference of two readings (a
    64-bit count of nanoseconds): integer division that truncates toward
    zero. *)
Definition duration_cast_Micros (d : Z) : Micros := Z.quot d 1000.

(** What can go wrong below the level of error values. *)
Inductive Fault : Type :=
| BadOptionalAccess   (* [std::optional::value()] on [std::nullopt] *)
| NullDereference     (* [->] through a null [std::unique_ptr] *)
| AssertionFailed.    (* [assert(0)] reached in a build with assertions *)

Inductive outcome (A : Type) : Type :=
| Done (a : A)
| Faulted (f : Fault).
Arguments Done {A} a.
Arguments Faulted {A} f.

Definition obind {A B : Type} (m : outcome A) (k : A -> outcome B) : outcome B :=
  match m with
  | Done a => k a
  | Faulted f => Faulted f
  end.

(** [Result<T, E>]: a value or an error. *)
Inductive Result (T E : Type) : Type :=
| Value (v : T)
| Failure (e : E).
Arguments Value {T E} v.
Arguments Failure {T E} e.

Definition has_error {T E : Type} (r : Result T E) : bool :=
  match r with Value _ => false | Failure _ => true end.

(** ** ProxiedSocket *)

Module ProxiedSocket.

(** Opaque collaborators, by identity. *)
Definition OutboundProxy : Type := nat.   (* the pointee of an [OutboundProxy *] *)
Definition ConnId : Type := N.            (* [uint32_t] *)
Definition EventLoop : Type := nat.
Definition SocketAddress : Type := string.
Definition SocketError : Type := nat.
Definition FnPtr : Type := nat.           (* a non-null function pointer *)
Definition Uint8View : Type := list Byte.byte.

(** [Error<SocketError>]: null means no error. *)
Definition Error : Type := option SocketError.

(** [Socket::Callbacks]: each handler may be [nullptr]. *)
Record Callbacks : Type := {
  cb_on_connected : option FnPtr;
  cb_on_read : option FnPtr;
  cb_on_close : option FnPtr;
  cb_arg : nat
}.

Definition no_callbacks : Callbacks :=
  {| cb_on_connected := None; cb_on_read := None; cb_on_close := None; cb_arg := 0%nat |}.

(** [Socket::ConnectParameters]. *)
Record ConnectParameters : Type := {
  cp_loop : EventLoop;
  cp_peer : SocketAddress;
  cp_callbacks : Callbacks;
  cp_timeout : option Micros
}.

(** The callback set handed to the proxy: which of the static shims of
    [ProxiedSocket] are installed ([false] is [nullptr]); the argument is
    always [this]. *)
Record ProxyCallbacks : Type := {
  px_on_successful_proxy_connection : bool;
  px_on_proxy_connection_failed : bool;
  px_on_connected : bool;
  px_on_read : bool;
  px_on_close : bool
}.

Definition all_shims : ProxyCallbacks :=
  {| px_on_successful_proxy_connection := true;
     px_on_proxy_connection_failed := true;
     px_on_connected := true;
     px_on_read := true;
     px_on_close := true |}.

(** The argument of [OutboundProxy::connect]. *)
Record ProxyConnectParameters : Type := {
  pcp_loop : EventLoop;
  pcp_proto : nat;
  pcp_peer : SocketAddress;
  pcp_callbacks : ProxyCallbacks;
  pcp_timeout : option Micros;
  pcp_outbound_interface : nat
}.

(** [struct FallbackInfo]; [make_unique<FallbackInfo>()] value-initialises it,
    so the fallback proxy starts as [nullptr]. *)
Record FallbackInfo : Type := {
  fi_loop : EventLoop;
  fi_peer : SocketAddress;
  fi_connect_timestamp : TimePoint;
  fi_timeout : option Micros;
  fi_proxy : option OutboundProxy
}.

(** The policy callbacks given at construction. *)
Record ProxiedCallbacks : Type := {
  pc_on_successful_proxy_connection : FnPtr;
  pc_on_proxy_connection_failed : FnPtr;
  pc_arg : nat
}.

(** The socket parameters the base class keeps. *)
Record SocketParameters : Type := {
  sp_proto : nat;
  sp_outbound_interface : nat
}.

(** [ProxiedSocket::Parameters]. *)
Record Parameters : Type := {
  p_socket_parameters : SocketParameters;
  p_outbound_proxy : OutboundProxy;
  p_callbacks : ProxiedCallbacks
}.

(** [ProxyConnectionFailedResult]: a variant of [CloseConnection] and
    [Fallback], the latter carrying a proxy pointer. *)
Inductive ProxyConnectionFailedResult : Type :=
| CloseConnection
| Fallback (proxy : option OutboundProxy).

(** The fields of a [ProxiedSocket]. *)
Record State : Type := {
  m_parameters : SocketParameters;
  m_proxy : OutboundProxy;
  m_proxied_callbacks : ProxiedCallbacks;
  m_proxy_id : option ConnId;
  m_fallback_info : option FallbackInfo;
  m_socket_callbacks : Callbacks
}.

Definition with_proxy (p : OutboundProxy) (s : State) : State :=
  {| m_parameters := m_parameters s; m_proxy := p;
     m_proxied_callbacks := m_proxied_callbacks s;
     m_proxy_id := m_proxy_id s; m_fallback_info := m_fallback_info s;
     m_socket_callbacks := m_socket_callbacks s |}.

Definition with_proxy_id (i : option ConnId) (s : State) : State :=
  {| m_parameters := m_parameters s; m_proxy := m_proxy s;
     m_proxied_callbacks := m_proxied_callbacks s;
     m_proxy_id := i; m_fallback_info := m_fallback_info s;
     m_socket_callbacks := m_socket_callbacks s |}.

Definition with_fallback_info (f : option FallbackInfo) (s : State) : State :=
  {| m_parameters := m_parameters s; m_proxy := m_proxy s;
     m_proxied_callbacks := m_proxied_callbacks s;
     m_proxy_id := m_proxy_id s; m_fallback_info := f;
     m_socket_callbacks := m_socket_callbacks s |}.

Definition with_socket_callbacks (c : Callbacks) (s : State) : State :=
  {| m_parameters := m_parameters s; m_proxy := m_proxy s;
     m_proxied_callbacks := m_proxied_callbacks s;
     m_proxy_id := m_proxy_id s; m_fallback_info := m_fallback_info s;
     m_socket_callbacks := c |}.

Definition with_fallback_proxy (p : option OutboundProxy) (f : FallbackInfo) : FallbackInfo :=
  {| fi_loop := fi_loop f; fi_peer := fi_peer f;
     fi_connect_timestamp := fi_connect_timestamp f;
     fi_timeout := fi_timeout f; fi_proxy := p |}.

Definition with_fallback_timeout (t : option Micros) (f : FallbackInfo) : FallbackInfo :=
  {| fi_loop := fi_loop f; fi_peer := fi_peer f;
     fi_connect_timestamp := fi_connect_timestamp f;
     fi_timeout := t; fi_proxy := fi_proxy f |}.

(** What a member function does to the outside: the calls it makes on the
    proxy (with the answer, where one is used) and on the application. *)
Inductive Action : Type :=
| ProxyConnect (p : OutboundProxy) (params : ProxyConnectParameters)
    (r : Result ConnId SocketError)
| ProxyCloseConnection (p : OutboundProxy) (id : ConnId)
| ProxySetCallbacks (p : OutboundProxy) (id : ConnId) (cbx : ProxyCallbacks)
| ProxySetTimeout (p : OutboundProxy) (id : ConnId) (t : Micros)
| ProxySend (p : OutboundProxy) (id : ConnId) (data : Uint8View)
| AppOnSuccessfulProxyConnection (f : FnPtr) (arg : nat)
| AppOnProxyConnectionFailed (f : FnPtr) (arg : nat) (err : Error)
| AppOnConnected (f : FnPtr) (arg : nat)
| AppOnRead (f : FnPtr) (arg : nat) (data : Uint8View)
| AppOnClose (f : FnPtr) (arg : nat) (err : Error).

(** The constructor. *)
Definition new (p : Parameters) : State :=
  {| m_parameters := p_socket_parameters p;
     m_proxy := p_outbound_proxy p;
     m_proxied_callbacks := p_callbacks p;
     m_proxy_id := None;
     m_fallback_info := None;
     m_socket_callbacks := no_callbacks |}.

(** The destructor: the calls it makes. *)
Definition destroy (s : State) : list Action :=
  match m_proxy_id s with
  | Some id => [ProxyCloseConnection (m_proxy s) id]
  | None => []
  end.

Definition shim_if (h : option FnPtr) : bool :=
  match h with Some _ => true | None => false end.

(** [set_callbacks]; [answer] is what [m_proxy->set_callbacks] returns when
    it is called. *)
Definition set_callbacks (cbx : Callbacks) (answer : Error) (s : State)
  : Error * State * list Action :=
  let s1 := with_socket_callbacks cbx s in
  match m_proxy_id s1 with
  | Some id =>
      (answer, s1,
       [ProxySetCallbacks (m_proxy s1) id
          {| px_on_successful_proxy_connection := true;
             px_on_proxy_connection_failed := true;
             px_on_connected := shim_if (cb_on_connected cbx);
             px_on_read := shim_if (cb_on_read cbx);
             px_on_close := shim_if (cb_on_close cbx) |}])
  | None => (None, s1, [])
  end.

Definition get_callbacks (s : State) : Callbacks := m_socket_callbacks s.

(** The answers of the outside during one [connect]. *)
Record ConnectEnv : Type := {
  env_set_callbacks : Error;
  env_connect : Result ConnId SocketError;
  env_now : TimePoint
}.

(** [connect], as compiled with [NDEBUG]: the [assert(0)] on the error path
    of [set_callbacks] is compiled out and the function returns the error.
    What a build with assertions does on that path is [connect_asserting]
    below. *)
Definition connect (params : ConnectParameters) (env : ConnectEnv) (s : State)
  : Error * State * list Action :=
  let '(err, s1, a1) := set_callbacks (cp_callbacks params) (env_set_callbacks env) s in
  match err with
  | Some e => (Some e, s1, a1)
  | None =>
      let r := env_connect env in
      let call :=
        ProxyConnect (m_proxy s1)
          {| pcp_loop := cp_loop params;
             pcp_proto := sp_proto (m_parameters s1);
             pcp_peer := cp_peer params;
             pcp_callbacks := all_shims;
             pcp_timeout := cp_timeout params;
             pcp_outbound_interface := sp_outbound_interface (m_parameters s1) |}
          r in
      match r with
      | Failure e => (Some e, s1, a1 ++ [call])
      | Value id =>
          let info :=
            {| fi_loop := cp_loop params;
               fi_peer := cp_peer params;
               fi_connect_timestamp := env_now env;
               fi_timeout := cp_timeout params;
               fi_proxy := None |} in
          (None,
           with_fallback_info (Some info) (with_proxy_id (Some id) s1),
           a1 ++ [call])
      end
  end.

(** [connect], as compiled with assertions: where [set_callbacks] returns an
    error, [assert(0)] ends the process; everywhere else the two builds do
    the same. *)
Definition connect_asserting (params : ConnectParameters) (env : ConnectEnv) (s : State)
  : outcome (Error * State * list Action) :=
  let '(err, _, _) := set_callbacks (cp_callbacks params) (env_set_callbacks env) s in
  match err with
  | Some _ => Faulted AssertionFailed
  | None => Done (connect params env s)
  end.

(** [send]; [answer] is what [m_proxy->send] returns. *)
Definition send (data : Uint8View) (answer : Error) (s : State)
  : outcome (Error * State * list Action) :=
  match m_proxy_id s with
  | Some id => Done (answer, s, [ProxySend (m_proxy s) id data])
  | None => Faulted BadOptionalAccess
  end.

(** [set_timeout]; [answer] is what [m_proxy->set_timeout] returns. *)
Definition set_timeout (timeout : Micros) (answer : bool) (s : State)
  : outcome (bool * State * list Action) :=
  let s1 :=
    match m_fallback_info s with
    | Some info => with_fallback_info (Some (with_fallback_timeout (Some timeout) info)) s
    | None => s
    end in
  match m_proxy_id s1 with
  | Some id => Done (answer, s1, [ProxySetTimeout (m_proxy s1) id timeout])
  | None => Faulted BadOptionalAccess
  end.

(** The shims the proxy calls back. *)

Definition on_successful_proxy_connection (s : State) : State * list Action :=
  (s, [AppOnSuccessfulProxyConnection
         (pc_on_successful_proxy_connection (m_proxied_callbacks s))
         (pc_arg (m_proxied_callbacks s))]).

(** [answer] is what the application's [on_proxy_connection_failed] returns. *)
Definition on_proxy_connection_failed (err : Error)
    (answer : ProxyConnectionFailedResult) (s : State)
  : outcome (State * list Action) :=
  let call :=
    AppOnProxyConnectionFailed
      (pc_on_proxy_connection_failed (m_proxied_callbacks s))
      (pc_arg (m_proxied_callbacks s)) err in
  match answer with
  | CloseConnection => Done (s, [call])
  | Fallback proxy =>
      match m_fallback_info s with
      | Some info =>
          Done (with_fallback_info (Some (with_fallback_proxy proxy info)) s, [call])
      | None => Faulted NullDereference
      end
  end.

Definition on_connected (conn_id : N) (s : State) : State * list Action :=
  let s1 := with_fallback_info None s in
  let cbx := get_callbacks s1 in
  match cb_on_connected cbx with
  | Some f => (s1, [AppOnConnected f (cb_arg cbx)])
  | None => (s1, [])
  end.

Definition on_read (data : Uint8View) (s : State) : State * list Action :=
  let cbx := get_callbacks s in
  match cb_on_read cbx with
  | Some f => (s, [AppOnRead f (cb_arg cbx) data])
  | None => (s, [])
  end.

(** The tail of [on_close]: hand the error to the application. *)
Definition propagate_close (error : Error) (s : State) : list Action :=
  let cbx := get_callbacks s in
  match cb_on_close cbx with
  | Some f => [AppOnClose f (cb_arg cbx) error]
  | None => []
  end.

(** The answers of the outside during one [on_close]: the clock reading that
    measures the elapsed time, and those of the [connect] it may make. *)
Record CloseEnv : Type := {
  env_close_now : TimePoint;
  env_reconnect : ConnectEnv
}.

(** The timeout handed to the fallback [connect]. *)
Definition remaining_budget (info : FallbackInfo) (now : TimePoint) : option Micros :=
  let elapsed := duration_cast_Micros (wrap64 (now - fi_connect_timestamp info)) in
  match fi_timeout info with
  | Some t => Some (Z.max 0 (wrap64 (t - elapsed)))
  | None => None
  end.

Definition on_close (error : Error) (env : CloseEnv) (s : State)
  : outcome (State * list Action) :=
  (* [std::move(self->m_fallback_info)] leaves the member null *)
  let info_opt := m_fallback_info s in
  let s0 := with_fallback_info None s in
  match info_opt with
  | Some info =>
      match fi_proxy info with
      | Some fallback =>
          match m_proxy_id s0 with
          | None => Faulted BadOptionalAccess
          | Some id =>
              let closing := ProxyCloseConnection (m_proxy s0) id in
              let s1 := with_proxy fallback (with_proxy_id None s0) in
              let socket_callbacks := m_socket_callbacks s1 in
              let '(error', s2, a2) :=
                connect
                  {| cp_loop := fi_loop info;
                     cp_peer := fi_peer info;
                     cp_callbacks := socket_callbacks;
                     cp_timeout := remaining_budget info (env_close_now env) |}
                  (env_reconnect env) s1 in
              match error' with
              | None => Done (s2, closing :: a2)
              | Some _ => Done (s2, closing :: a2 ++ propagate_close error' s2)
              end
          end
      | None => Done (s0, propagate_close error s0)
      end
  | None => Done (s0, propagate_close error s0)
  end.

(** What happens to a socket: the calls of its owner and the callbacks of the
    proxy, each with the answers the outside gives during it. *)
Inductive Event : Type :=
| ApiConnect (params : ConnectParameters) (env : ConnectEnv)
| ApiSend (data : Uint8View) (answer : Error)
| ApiSetTimeout (timeout : Micros) (answer : bool)
| ApiSetCallbacks (cbx : Callbacks) (answer : Error)
| ProxySuccessfulConnection
| ProxyConnectionFailed (err : Error) (answer : ProxyConnectionFailedResult)
| ProxyConnected (conn_id : N)
| ProxyRead (data : Uint8View)
| ProxyClose (error : Error) (env : CloseEnv).

Definition step (s : State) (ev : Event) : outcome (State * list Action) :=
  match ev with
  | ApiConnect params env =>
      let '(_, s', a) := connect params env s in Done (s', a)
  | ApiSend data answer =>
      obind (send data answer s) (fun '(_, s', a) => Done (s', a))
  | ApiSetTimeout timeout answer =>
      obind (set_timeout timeout answer s) (fun '(_, s', a) => Done (s', a))
  | ApiSetCallbacks cbx answer =>
      let '(_, s', a) := set_callbacks cbx answer s in Done (s', a)
  | ProxySuccessfulConnection => Done (on_successful_proxy_connection s)
  | ProxyConnectionFailed err answer => on_proxy_connection_failed err answer s
  | ProxyConnected conn_id => Done (on_connected conn_id s)
  | ProxyRead data => Done (on_read data s)
  | ProxyClose error env => on_close error env s
  end.

(** A life of the socket: the events in order, each paired with what the
    socket did during it. *)
Definition Trace : Type := list (Event * list Action).

Fixpoint run (s : State) (evs : list Event) : outcome (State * Trace) :=
  match evs with
  | [] => Done (s, [])
  | ev :: evs' =>
      obind (step s ev) (fun '(s1, a) =>
      obind (run s1 evs') (fun '(s2, tr) =>
      Done (s2, (ev, a) :: tr)))
  end.

Definition actions (tr : Trace) : list Action := concat (map snd tr).

(** *** Reading a trace *)

(** [close_connection] is called on the proxy by the fallback branch of
    [on_close] and nowhere else during the life of the socket, so it marks
    the fallbacks of a trace. *)
Definition is_close_connection (a : Action) : bool :=
  match a with ProxyCloseConnection _ _ => true | _ => false end.

Definition fell_back (out : list Action) : bool := existsb is_close_connection out.

Fixpoint fallback_count (tr : Trace) : nat :=
  match tr with
  | [] => 0%nat
  | (_, out) :: tr' => ((if fell_back out then 1 else 0) + fallback_count tr')%nat
  end.

(** The proxy failures that the application answered with a fallback proxy. *)
Definition grants_fallback (ev : Event) : bool :=
  match ev with
  | ProxyConnectionFailed _ (Fallback (Some _)) => true
  | _ => false
  end.

Fixpoint fallback_grants (evs : list Event) : nat :=
  match evs with
  | [] => 0%nat
  | ev :: evs' => ((if grants_fallback ev then 1 else 0) + fallback_grants evs')%nat
  end.

(** Whether a stored fallback proxy is waiting for the next [on_close]. *)
Definition armed (s : State) : bool :=
  match m_fallback_info s with
  | Some info => match fi_proxy info with Some _ => true | None => false end
  | None => false
  end.



(** Whether a [connect] returned success during a step. *)
Definition is_connect_success (a : Action) : bool :=
  match a with ProxyConnect _ _ (Value _) => true | _ => false end.

Definition connect_succeeded (out : list Action) : bool := existsb is_connect_success out.




(** *** Sample lives of a socket *)

Definition sample_parameters : Parameters :=
  {| p_socket_parameters := {| sp_proto := 1%nat; sp_outbound_interface := 0%nat |};
     p_outbound_proxy := 1%nat;
     p_callbacks :=
       {| pc_on_successful_proxy_connection := 1%nat;
          pc_on_proxy_connection_failed := 2%nat;
          pc_arg := 7%nat |} |}.

Definition sample_callbacks : Callbacks :=
  {| cb_on_connected := Some 10%nat;
     cb_on_read := Some 11%nat;
     cb_on_close := Some 12%nat;
     cb_arg := 5%nat |}.

Definition sample_connect (timeout : option Micros) : ConnectParameters :=
  {| cp_loop := 0%nat;
     cp_peer := "94.140.14.14:53"%string;
     cp_callbacks := sample_callbacks;
     cp_timeout := timeout |}.

Definition answering (r : Result ConnId SocketError) (now : TimePoint) : ConnectEnv :=
  {| env_set_callbacks := None; env_connect := r; env_now := now |}.

Definition closing_at (now : TimePoint) (r : Result ConnId SocketError) : CloseEnv :=
  {| env_close_now := now; env_reconnect := answering r now |}.

(** The proxy fails, the application names proxy 2; the connection through
    proxy 2 fails in the same way and the application names proxy 3. *)
Definition two_fallbacks : list Event :=
  [ ApiConnect (sample_connect (Some 1000000)) (answering (Value 1%N) 0);
    ProxyConnectionFailed (Some 111%nat) (Fallback (Some 2%nat));
    ProxyClose (Some 111%nat) (closing_at 100000 (Value 2%N));
    ProxyConnectionFailed (Some 111%nat) (Fallback (Some 3%nat));
    ProxyClose (Some 111%nat) (closing_at 200000 (Value 3%N)) ].

(** A timeout of 1 s at [connect], changed to 5 s by [set_timeout] before
    the proxy fails; the close comes 100 microseconds after the connect. *)
Definition retimed_fallback : list Event :=
  [ ApiConnect (sample_connect (Some 1000000)) (answering (Value 1%N) 0);
    ApiSetTimeout 5000000 true;
    ProxyConnectionFailed (Some 111%nat) (Fallback (Some 2%nat));
    ProxyClose (Some 111%nat) (closing_at 100000 (Value 2%N)) ].


(** A connection that gets established and is closed later. *)
Definition connected_then_closed : list Event :=
  [ ApiConnect (sample_connect None) (answering (Value 7%N) 0);
    ProxySuccessfulConnection;
    ProxyConnected 7%N;
    ProxyRead [Byte.x00; Byte.x01];
    ProxyClose None (closing_at 100000 (Value 8%N)) ].

(** *** The rest of the interface, and more ways to read a trace *)

(** [get_fd]; [proxy_get_fd] is what [m_proxy->get_fd] answers for a
    connection of a proxy.  [evutil_socket_t] is an integer. *)
Definition get_fd (proxy_get_fd : OutboundProxy -> ConnId -> option Z) (s : State)
  : option Z :=
  match m_proxy_id s with
  | None => None
  | Some id => proxy_get_fd (m_proxy s) id
  end.

(** The proxy and the connection the socket holds. *)
Definition binding (s : State) : option (OutboundProxy * ConnId) :=
  match m_proxy_id s with
  | Some id => Some (m_proxy s, id)
  | None => None
  end.

(** The connection last obtained from a proxy and not closed since, with the
    proxy that gave it. *)
Definition track_binding (live : option (OutboundProxy * ConnId)) (a : Action)
  : option (OutboundProxy * ConnId) :=
  match a with
  | ProxyConnect p _ (Value id) => Some (p, id)
  | ProxyCloseConnection _ _ => None
  | _ => live
  end.

Definition is_binding (live : option (OutboundProxy * ConnId))
    (p : OutboundProxy) (id : ConnId) : bool :=
  match live with
  | Some (p', id') => Nat.eqb p p' && N.eqb id id'
  | None => false
  end.

(** Whether a call that names a connection names the live one, on its proxy. *)
Definition names_live (live : option (OutboundProxy * ConnId)) (a : Action) : bool :=
  match a with
  | ProxyCloseConnection p id => is_binding live p id
  | ProxySetCallbacks p id _ => is_binding live p id
  | ProxySetTimeout p id _ => is_binding live p id
  | ProxySend p id _ => is_binding live p id
  | _ => true
  end.

Fixpoint calls_name_live (live : option (OutboundProxy * ConnId)) (acts : list Action)
  : bool :=
  match acts with
  | [] => true
  | a :: rest => names_live live a && calls_name_live (track_binding live a) rest
  end.

(** What the application gets to see. *)
Definition is_app_action (a : Action) : bool :=
  match a with
  | AppOnSuccessfulProxyConnection _ _ => true
  | AppOnProxyConnectionFailed _ _ _ => true
  | AppOnConnected _ _ => true
  | AppOnRead _ _ _ => true
  | AppOnClose _ _ _ => true
  | _ => false
  end.

Definition app_actions (acts : list Action) : list Action := List.filter is_app_action acts.

(** The callback set of the latest [connect] or [set_callbacks] by the owner. *)
Definition track_callbacks (cbx : Callbacks) (ev : Event) : Callbacks :=
  match ev with
  | ApiConnect params _ => cp_callbacks params
  | ApiSetCallbacks cbx' _ => cbx'
  | _ => cbx
  end.

Definition latest_callbacks (evs : list Event) : Callbacks :=
  fold_left track_callbacks evs no_callbacks.

End ProxiedSocket.

(** ** Upstream *)

Module Upstream.

(** [IpAddress] and [IfIdVariant] are variants with an empty alternative. *)
Inductive IpAddress : Type :=
| NoAddress
| Ipv4Address (octets : list Byte.byte)
| Ipv6Address (octets : list Byte.byte).

Inductive IfIdVariant : Type :=
| NoInterface
| IfIndex (index : N)
| IfName (name : string).

Record UpstreamOptions : Type := {
  address : string;
  bootstrap : list string;
  timeout : Millis;
  resolved_server_ip : IpAddress;
  id : Z;
  outbound_interface : IfIdVariant;
  ignore_proxy_settings : bool
}.

Record UpstreamFactoryConfig : Type := {
  loop : nat;
  socket_factory : option nat;
  ipv6_available : bool
}.

Definition with_timeout (t : Millis) (o : UpstreamOptions) : UpstreamOptions :=
  {| address := address o; bootstrap := bootstrap o; timeout := t;
     resolved_server_ip := resolved_server_ip o; id := id o;
     outbound_interface := outbound_interface o;
     ignore_proxy_settings := ignore_proxy_settings o |}.

(** The data members of the base class. *)
Record State : Type := {
  m_options : UpstreamOptions;
  m_config : UpstreamFactoryConfig;
  m_rtt : Millis
}.

Definition DEFAULT_TIMEOUT : Millis := 5000.

(** The constructor; [!m_options.timeout.count()] holds of a zero count. *)
Definition new (opts : UpstreamOptions) (config : UpstreamFactoryConfig) : State :=
  {| m_options :=
       if Z.eqb (timeout opts) 0 then with_timeout DEFAULT_TIMEOUT opts else opts;
     m_config := config;
     m_rtt := 0 |}.

Definition options (u : State) : UpstreamOptions := m_options u.

Definition rtt (u : State) : Millis := m_rtt u.

(** [adjust_rtt]: the sum is that of two 64-bit counts; the division of a
    duration by an integer is that of its count, which truncates toward
    zero. *)
Definition adjust_rtt (elapsed : Millis) (u : State) : State :=
  {| m_options := m_options u;
     m_config := m_config u;
     m_rtt := Z.quot (wrap64 (m_rtt u + elapsed)) 2 |}.

(** An upstream to try things on. *)
Definition sample_options : UpstreamOptions :=
  {| address := "tls://1.1.1.1"; bootstrap := []; timeout := 0;
     resolved_server_ip := NoAddress; id := 1;
     outbound_interface := NoInterface;
     ignore_proxy_settings := false |}.

Definition sample_config : UpstreamFactoryConfig :=
  {| loop := 0%nat; socket_factory := None; ipv6_available := true |}.

(** [adjust_rtt] after each of a series of exchanges. *)
Definition adjust_all (elapsed : list Millis) (u : State) : State :=
  fold_left (fun u' e => adjust_rtt e u') elapsed u.

Definition config (u : State) : UpstreamFactoryConfig := m_config u.

(** The argument of [SocketFactory::make_socket]. *)
Record SocketRequest : Type := {
  sr_proto : nat;
  sr_outbound_interface : IfIdVariant;
  sr_ignore_proxy_settings : bool
}.

(** [make_socket]: the call made on the socket factory, which the
    configuration holds by a pointer that may be null. *)
Definition make_socket (proto : nat) (u : State) : outcome (nat * SocketRequest) :=
  match socket_factory (m_config u) with
  | Some factory =>
      Done (factory,
            {| sr_proto := proto;
               sr_outbound_interface := outbound_interface (m_options u);
               sr_ignore_proxy_settings := ignore_proxy_settings (m_options u) |})
  | None => Faulted NullDereference
  end.

(** [make_secured_socket]: as above, with the parameters of the secure layer
    passed on. *)
Definition make_secured_socket {S : Type} (proto : nat) (secure_socket_parameters : S)
    (u : State) : outcome (nat * SocketRequest * S) :=
  match socket_factory (m_config u) with
  | Some factory =>
      Done (factory,
            {| sr_proto := proto;
               sr_outbound_interface := outbound_interface (m_options u);
               sr_ignore_proxy_settings := ignore_proxy_settings (m_options u) |},
            secure_socket_parameters)
  | None => Faulted NullDereference
  end.

Inductive InitError : Type :=
| AE_EMPTY_SERVER_NAME
| AE_EMPTY_BOOTSTRAP
| AE_BOOTSTRAPPER_INIT_FAILED
| AE_INVALID_ADDRESS
| AE_SSL_CONTEXT_INIT_FAILED
| AE_CURL_HEADERS_INIT_FAILED
| AE_CURL_POOL_INIT_FAILED.

Inductive UpstreamCreateError : Type :=
| AE_INVALID_URL
| AE_INVALID_STAMP
| AE_INIT_FAILED.

(** [ErrorCodeToString<UpstreamFactory::UpstreamCreateError>]. *)
Definition ErrorCodeToString_UpstreamCreateError (e : UpstreamCreateError) : string :=
  match e with
  | AE_INVALID_URL => "Invalid URL"
  | AE_INVALID_STAMP => "Invalid DNS stamp"
  | AE_INIT_FAILED => "Error initializing upstream"
  end.

(** [ErrorCodeToString<Upstream::InitError>]. *)
Definition ErrorCodeToString_InitError (e : InitError) : string :=
  match e with
  | AE_EMPTY_SERVER_NAME => "Server name is empty"
  | AE_EMPTY_BOOTSTRAP =>
      "Bootstrap should not be empty when server IP address is not known"
  | AE_BOOTSTRAPPER_INIT_FAILED => "Failed to create bootstrapper"
  | AE_INVALID_ADDRESS => "Passed server address is not valid"
  | AE_SSL_CONTEXT_INIT_FAILED => "Failed to initialize SSL context"
  | AE_CURL_HEADERS_INIT_FAILED => "Failed to initialize CURL headers"
  | AE_CURL_POOL_INIT_FAILED => "Failed to initialize CURL connection pool"
  end.

End Upstream.

(** ** DNS64 address synthesis *)

Module Dns64.

Definition Uint8View : Type := list Byte.byte.

Inductive Ipv6SynthError : Type :=
| InvalidArgument.

(** Modelled from the spec: the allowed Pref64 lengths, in bytes (section 3
    and section 4.6); the function that checks them is in [dns64.cpp], which
    is not among the sources. *)
Definition allowed_lengths : list nat := [4; 5; 6; 7; 8; 12]%nat.

Definition pref_len_allowed (n : nat) : bool := existsb (Nat.eqb n) allowed_lengths.

(** The reserved octet of RFC 6052. *)
Definition U_OCTET : nat := 8%nat.

Definition zeroed : list Byte.byte := replicate 16 Byte.x00.

(** Modelled from the spec: the copy of the prefix into the zeroed result,
    part of the missing [dns64.cpp]; [src] goes into [dst] from index [i] on. *)
Fixpoint copy_at (src : list Byte.byte) (i : nat) (dst : list Byte.byte) : list Byte.byte :=
  match src with
  | [] => dst
  | b :: rest => copy_at rest (S i) (<[i := b]> dst)
  end.

(** Modelled from the spec: the writing of the IPv4 octets, part of the
    missing [dns64.cpp]; the octets of [ip4] go into [dst] from index [i] on,
    and when they reach index 8 that byte is set to 0 and passed over. *)
Fixpoint embed (ip4 : list Byte.byte) (i : nat) (dst : list Byte.byte) : list Byte.byte :=
  match ip4 with
  | [] => dst
  | b :: rest =>
      if Nat.eqb i U_OCTET
      then embed rest (S (S i)) (<[S i := b]> (<[i := Byte.x00]> dst))
      else embed rest (S i) (<[i := b]> dst)
  end.

(** Modelled from the spec: [synthesize_ipv4_embedded_ipv6_address] lives in
    [dns64.cpp], which is not among the sources; only its test is.  Section
    4.6: the prefix length in bytes must be one of 4, 5, 6, 7, 8, 12, any
    other length is an error; the 16-byte result is zeroed, the prefix is
    copied into bytes 0..len, the IPv4 octets are written from offset len on
    with byte 8 reserved (set to 0); for a prefix of 12 bytes too, offset 8
    is 0, and byte 8 of every result is 0 (section 8).  So byte 8 is set to 0
    last, also where the prefix has covered it.  The spec speaks of four IPv4
    octets only; the octets given are written in order. *)
Definition synthesize_ipv4_embedded_ipv6_address (pref64 ip4 : Uint8View)
  : Result (list Byte.byte) Ipv6SynthError :=
  if pref_len_allowed (length pref64)
  then Value (<[U_OCTET := Byte.x00]>
                (embed ip4 (length pref64) (copy_at pref64 0 zeroed)))
  else Failure InvalidArgument.

(** Where the [k]-th IPv4 octet lands for a prefix of [L] bytes. *)
Definition ipv4_offset (L k : nat) : nat :=
  if (Nat.leb L U_OCTET && Nat.leb U_OCTET (L + k))%bool then S (L + k) else (L + k)%nat.

(** The vectors of [TestIpv6Synthesis]. *)
Definition test_ip4 : Uint8View := [Byte.x01; Byte.x02; Byte.x03; Byte.x04].

Definition test_pref : list Byte.byte :=
  [Byte.x05; Byte.x05; Byte.x05; Byte.x05; Byte.x05; Byte.x05; Byte.x05; Byte.x05;
   Byte.x00; Byte.x05; Byte.x05; Byte.x05].

(** Twelve bytes that are no well-formed Pref64: byte 8 is not zero. *)
Definition odd_pref : list Byte.byte :=
  [Byte.x05; Byte.x05; Byte.x05; Byte.x05; Byte.x05; Byte.x05; Byte.x05; Byte.x05;
   Byte.xff; Byte.x05; Byte.x05; Byte.x05].

Definition pad16 (l : list Byte.byte) : list Byte.byte :=
  l ++ replicate (16 - length l) Byte.x00.

Definition expect_4 : list Byte.byte :=
  pad16 [Byte.x05; Byte.x05; Byte.x05; Byte.x05; Byte.x01; Byte.x02; Byte.x03; Byte.x04;
         Byte.x00].
Definition expect_5 : list Byte.byte :=
  pad16 [Byte.x05; Byte.x05; Byte.x05; Byte.x05; Byte.x05; Byte.x01; Byte.x02; Byte.x03;
         Byte.x00; Byte.x04].
Definition expect_6 : list Byte.byte :=
  pad16 [Byte.x05; Byte.x05; Byte.x05; Byte.x05; Byte.x05; Byte.x05; Byte.x01; Byte.x02;
         Byte.x00; Byte.x03; Byte.x04].
Definition expect_7 : list Byte.byte :=
  pad16 [Byte.x05; Byte.x05; Byte.x05; Byte.x05; Byte.x05; Byte.x05; Byte.x05; Byte.x01;
         Byte.x00; Byte.x02; Byte.x03; Byte.x04].
Definition expect_8 : list Byte.byte :=
  pad16 [Byte.x05; Byte.x05; Byte.x05; Byte.x05; Byte.x05; Byte.x05; Byte.x05; Byte.x05;
         Byte.x00; Byte.x01; Byte.x02; Byte.x03; Byte.x04].
Definition expect_12 : list Byte.byte :=
  [Byte.x05; Byte.x05; Byte.x05; Byte.x05; Byte.x05; Byte.x05; Byte.x05; Byte.x05;
   Byte.x00; Byte.x05; Byte.x05; Byte.x05; Byte.x01; Byte.x02; Byte.x03; Byte.x04].

End Dns64.

(** * Properties *)

(** A count that fits is its own 64-bit value. *)
Lemma wrap64_id (z : Z) : in_int64 z -> wrap64 z = z.
Proof.
  unfold in_int64, INT64_MIN, INT64_MAX, wrap64. intros H.
  rewrite Z.mod_small by lia. lia.
Qed.

Lemma wrap64_in_int64 (z : Z) : in_int64 (wrap64 z).
Proof.
  unfold in_int64, INT64_MIN, INT64_MAX, wrap64.
  pose proof (Z.mod_pos_bound (z + 9223372036854775808) 18446744073709551616 ltac:(lia)).
  lia.
Qed.

(** ** Upstream *)

Section UpstreamFacts.
Import Upstream.

(** Truncation toward zero keeps a mean between its two arguments. *)
Lemma quot2_between (a b : Z) :
  Z.min a b <= Z.quot (a + b) 2 <= Z.max a b.
Proof.
  destruct (Z.le_gt_cases 0 (a + b)) as [Hs | Hs].
  - rewrite Z.quot_div_nonneg by lia.
    pose proof (Z.div_mod (a + b) 2 ltac:(lia)) as Hd.
    pose proof (Z.mod_pos_bound (a + b) 2 ltac:(lia)) as Hm.
    lia.
  - replace (a + b) with (- (- (a + b))) by lia.
    rewrite Z.quot_opp_l by lia.
    rewrite Z.quot_div_nonneg by lia.
    pose proof (Z.div_mod (- (a + b)) 2 ltac:(lia)) as Hd.
    pose proof (Z.mod_pos_bound (- (a + b)) 2 ltac:(lia)) as Hm.
    lia.
Qed.

(** On non-negative durations whose sum fits, the truncating division is the
    usual one. *)
Lemma adjust_rtt_nonneg (u : State) (elapsed : Millis) :
  0 <= rtt u -> 0 <= elapsed -> rtt u + elapsed <= INT64_MAX ->
  rtt (adjust_rtt elapsed u) = (rtt u + elapsed) / 2 /\ 0 <= rtt (adjust_rtt elapsed u).
Proof.
  intros Ho He Hs. unfold rtt, adjust_rtt in *. simpl.
  rewrite wrap64_id by (unfold in_int64, INT64_MIN, INT64_MAX in *; lia).
  rewrite Z.quot_div_nonneg by lia. split; [reflexivity |].
  apply Z.div_pos; lia.
Qed.

(** C6: the constructor stores the default of 5000 milliseconds when the
    options carry a timeout of 0, and the timeout of the options otherwise. *)
Theorem new_timeout_default (opts : UpstreamOptions) (config : UpstreamFactoryConfig) :
  timeout (options (new opts config))
  = (if Z.eqb (timeout opts) 0 then 5000 else timeout opts).
Proof.
  unfold options, new. simpl.
  destruct (Z.eqb (timeout opts) 0); reflexivity.
Qed.

(** C7, as the code has it: when the sum of the old RTT and the elapsed time
    fits the signed 64-bit count, [adjust_rtt] sets the RTT to
    (old + elapsed) / 2, the integer division of C++ (which truncates toward
    zero, and is the floor on non-negative values), and the new RTT lies
    between the smaller and the larger of the old RTT and the elapsed time. *)
Theorem adjust_rtt_mean_bounded (u : State) (elapsed : Millis) :
  in_int64 (rtt u + elapsed) ->
  rtt (adjust_rtt elapsed u) = Z.quot (rtt u + elapsed) 2
  /\ Z.min (rtt u) elapsed <= rtt (adjust_rtt elapsed u) <= Z.max (rtt u) elapsed
  /\ (0 <= rtt u -> 0 <= elapsed -> rtt (adjust_rtt elapsed u) = (rtt u + elapsed) / 2).
Proof.
  intros Hfit. unfold rtt, adjust_rtt. simpl.
  rewrite wrap64_id by exact Hfit.
  split; [reflexivity |]. split; [apply quot2_between |].
  intros Ho He. apply Z.quot_div_nonneg; lia.
Qed.

Lemma adjust_rtt_mean_bounded_witness :
  rtt (adjust_rtt 30 (adjust_rtt 40 (new sample_options sample_config))) = 25
  /\ Z.min 20 30 <= 25 <= Z.max 20 30.
Proof.
  destruct (adjust_rtt_mean_bounded (adjust_rtt 40 (new sample_options sample_config)) 30)
    as [He [Hb _]].
  - vm_compute. split; discriminate.
  - split; [exact He | exact Hb].
Defined.

(** C7 as stated fails: the largest elapsed time, twice.  The first call
    leaves an RTT of 2^62 - 1; in the second the sum of two non-negative
    counts no longer fits, and the new RTT is negative, below both. *)
Lemma adjust_rtt_overflow :
  rtt (adjust_rtt INT64_MAX (new sample_options sample_config)) = 4611686018427387903
  /\ rtt (adjust_rtt INT64_MAX (adjust_rtt INT64_MAX (new sample_options sample_config)))
     = -2305843009213693953
  /\ ~ (Z.min 4611686018427387903 INT64_MAX
        <= rtt (adjust_rtt INT64_MAX
                  (adjust_rtt INT64_MAX (new sample_options sample_config)))
        <= Z.max 4611686018427387903 INT64_MAX).
Proof.
  split; [reflexivity |]. split; [reflexivity |].
  vm_compute. intros [H _]. apply H. reflexivity.
Qed.

End UpstreamFacts.

(** ** DNS64 *)

Section Dns64Facts.
Import Dns64.

Lemma pref_len_allowed_In (n : nat) :
  pref_len_allowed n = true <-> In n allowed_lengths.
Proof.
  unfold pref_len_allowed. rewrite existsb_exists. split.
  - intros [x [Hx He]]. apply Nat.eqb_eq in He. subst. exact Hx.
  - intros H. exists n. split; [exact H | apply Nat.eqb_refl].
Qed.

(** The vectors of the test, and with them the literal scenarios of the
    specification (lengths 4, 5, 8 and 12). *)
Lemma synthesis_test_vectors :
  synthesize_ipv4_embedded_ipv6_address (take 4 test_pref) test_ip4 = Value expect_4
  /\ synthesize_ipv4_embedded_ipv6_address (take 5 test_pref) test_ip4 = Value expect_5
  /\ synthesize_ipv4_embedded_ipv6_address (take 6 test_pref) test_ip4 = Value expect_6
  /\ synthesize_ipv4_embedded_ipv6_address (take 7 test_pref) test_ip4 = Value expect_7
  /\ synthesize_ipv4_embedded_ipv6_address (take 8 test_pref) test_ip4 = Value expect_8
  /\ synthesize_ipv4_embedded_ipv6_address (take 12 test_pref) test_ip4 = Value expect_12.
Proof. repeat split; reflexivity. Qed.

Ltac split_length H l :=
  repeat (destruct l as [| ? l]; simpl in H; try discriminate H).

Ltac upto16 i :=
  do 16 (destruct i as [| i]; [try reflexivity; try lia; try congruence |]).

(** C8, as the model of the spec has it: for a prefix of an allowed length L
    and four IPv4 octets the result has 16 bytes; byte 8 is always 0; the
    other bytes of 0..L are those of the prefix (all of them when L <= 8, or
    when byte 8 of the prefix is 0 itself); the IPv4 octets follow from
    offset L on with index 8 passed over; every other byte is 0; the second
    literal scenario (L = 5) is an instance. *)
Theorem synthesize_layout (pref64 ip4 : Uint8View) :
  In (length pref64) allowed_lengths ->
  length ip4 = 4%nat ->
  exists addr : list Byte.byte,
    synthesize_ipv4_embedded_ipv6_address pref64 ip4 = Value addr
    /\ length addr = 16%nat
    /\ addr !! 8%nat = Some Byte.x00
    /\ (forall i : nat, (i < length pref64)%nat -> i <> 8%nat -> addr !! i = pref64 !! i)
    /\ (forall i : nat, (i < length pref64)%nat ->
          (length pref64 <= 8)%nat \/ pref64 !! 8%nat = Some Byte.x00 ->
          addr !! i = pref64 !! i)
    /\ (forall k : nat, (k < 4)%nat -> addr !! ipv4_offset (length pref64) k = ip4 !! k)
    /\ (forall i : nat, (length pref64 <= i < 16)%nat ->
          (forall k : nat, (k < 4)%nat -> i <> ipv4_offset (length pref64) k) ->
          addr !! i = Some Byte.x00)
    /\ synthesize_ipv4_embedded_ipv6_address
         [Byte.x05; Byte.x05; Byte.x05; Byte.x05; Byte.x05]
         [Byte.x01; Byte.x02; Byte.x03; Byte.x04]
       = Value [Byte.x05; Byte.x05; Byte.x05; Byte.x05; Byte.x05; Byte.x01; Byte.x02;
                Byte.x03; Byte.x00; Byte.x04; Byte.x00; Byte.x00; Byte.x00; Byte.x00;
                Byte.x00; Byte.x00].
Proof.
  intros HL H4.
  destruct ip4 as [| a [| b [| c [| d [| ? ?]]]]]; try discriminate H4. clear H4.
  simpl in HL.
  destruct HL as [HL | [HL | [HL | [HL | [HL | [HL | []]]]]]];
    split_length HL pref64; clear HL;
    (eexists; split; [reflexivity |]);
    (split; [reflexivity |]);
    (split; [reflexivity |]);
    (split; [intros i Hi Hne; simpl in Hi; upto16 i; lia |]);
    (split; [intros i Hi Hz; simpl in Hi, Hz;
             try (destruct Hz as [Hz | Hz]; [lia | injection Hz as ->]);
             upto16 i; lia |]);
    (split; [intros k Hk; upto16 k; lia |]);
    (split; [| reflexivity]);
    intros i [Hlo Hhi] Hk; simpl in Hlo;
    pose proof (Hk 0%nat ltac:(lia)) as K0; pose proof (Hk 1%nat ltac:(lia)) as K1;
    pose proof (Hk 2%nat ltac:(lia)) as K2; pose proof (Hk 3%nat ltac:(lia)) as K3;
    vm_compute in K0, K1, K2, K3; clear Hk;
    upto16 i; lia.
Qed.

Lemma synthesize_layout_witness :
  exists addr : list Byte.byte,
    synthesize_ipv4_embedded_ipv6_address (take 5 test_pref) test_ip4 = Value addr
    /\ addr = expect_5.
Proof.
  destruct (synthesize_layout (take 5 test_pref) test_ip4) as [addr [Hs _]].
  - simpl. right. left. reflexivity.
  - reflexivity.
  - exists addr. split; [exact Hs |].
    vm_compute in Hs. injection Hs as Hs. symmetry. exact Hs.
Defined.

(** C8 as stated fails: the result cannot both have the prefix in bytes 0..L
    and be 0 at byte 8.  For twelve bytes whose byte 8 is ff, byte 8 of the
    result is 0 and not that of the prefix. *)
Lemma prefix_byte_8_not_kept :
  exists addr : list Byte.byte,
    synthesize_ipv4_embedded_ipv6_address odd_pref test_ip4 = Value addr
    /\ length odd_pref = 12%nat
    /\ odd_pref !! 8%nat = Some Byte.xff
    /\ addr !! 8%nat = Some Byte.x00
    /\ addr !! 8%nat <> odd_pref !! 8%nat.
Proof.
  eexists. split; [reflexivity |].
  split; [reflexivity |]. split; [reflexivity |]. split; [reflexivity |].
  simpl. discriminate.
Qed.

(** C9: a prefix whose length in bytes is none of 4, 5, 6, 7, 8, 12 yields the
    InvalidArgument error, whatever the four IPv4 octets, and no address. *)
Theorem synthesize_rejects_length (pref64 ip4 : Uint8View) :
  ~ In (length pref64) allowed_lengths ->
  length ip4 = 4%nat ->
  synthesize_ipv4_embedded_ipv6_address pref64 ip4 = Failure InvalidArgument
  /\ has_error (synthesize_ipv4_embedded_ipv6_address pref64 ip4) = true.
Proof.
  intros Hn _. unfold synthesize_ipv4_embedded_ipv6_address.
  destruct (pref_len_allowed (length pref64)) eqn:E.
  - apply pref_len_allowed_In in E. contradiction.
  - split; reflexivity.
Qed.

Lemma synthesize_rejects_length_witness :
  synthesize_ipv4_embedded_ipv6_address (take 10 test_pref) test_ip4
  = Failure InvalidArgument.
Proof.
  apply (synthesize_rejects_length (take 10 test_pref) test_ip4).
  - simpl. intros H. repeat (destruct H as [H | H]; [discriminate H |]). exact H.
  - reflexivity.
Defined.

End Dns64Facts.

(** ** ProxiedSocket *)

Section ProxiedSocketFacts.
Import ProxiedSocket.

(** Unfold one step of the socket and split on every test it makes. *)
Ltac unfold_members :=
  unfold step, on_close, connect, set_callbacks, send, set_timeout,
    on_proxy_connection_failed, on_connected, on_read,
    on_successful_proxy_connection, propagate_close, get_callbacks, obind in *.

Ltac split_tests :=
  repeat match goal with
         | H : Faulted _ = Done _ |- _ => discriminate H
         | H : context [match ?x with _ => _ end] |- _ =>
             destruct x eqn:?; simpl in H; try discriminate H
         | H : Done _ = Done _ |- _ => injection H as H; subst
         | H : (_, _) = (_, _) |- _ => injection H as H; subst
         end.

Ltac step_cases H :=
  unfold_members; simpl in H; split_tests; subst; simpl in *.

(** Lay a state open down to the two optional members and the fallback
    proxy slot. *)
Ltac open_state s :=
  let fi := fresh "fi" in
  let pid := fresh "pid" in
  destruct s as [? ? ? pid fi ?];
  destruct fi as [[? ? ? ? [? |]] |];
  destruct pid as [? |].

Lemma run_cons (s : State) (ev : Event) (evs : list Event) (s2 : State) (tr : Trace) :
  run s (ev :: evs) = Done (s2, tr) ->
  exists s1 out tr',
    step s ev = Done (s1, out) /\ run s1 evs = Done (s2, tr') /\ tr = (ev, out) :: tr'.
Proof.
  simpl. unfold obind.
  destruct (step s ev) as [[s1 out] | f]; [| discriminate].
  destruct (run s1 evs) as [[s2' tr'] | f] eqn:Hrun; [| discriminate].
  intros H. injection H as H1 H2. subst.
  exists s1, out, tr'. repeat split; [exact Hrun].
Qed.

Lemma run_nil (s s2 : State) (tr : Trace) :
  run s [] = Done (s2, tr) -> s2 = s /\ tr = [].
Proof. simpl. intros H. injection H as H1 H2. subst. split; reflexivity. Qed.

(** One step spends a stored fallback proxy when it falls back and stores
    one only when the application grants it. *)
Lemma step_fallback_budget (s s' : State) (ev : Event) (out : list Action) :
  step s ev = Done (s', out) ->
  ((if fell_back out then 1 else 0) + (if armed s' then 1 else 0)
   <= (if grants_fallback ev then 1 else 0) + (if armed s then 1 else 0))%nat.
Proof.
  intros H. open_state s; destruct ev; unfold armed, fell_back; step_cases H;
    repeat match goal with
           | |- context [match ?x with _ => _ end] => destruct x eqn:?; simpl
           end; try lia; try congruence.
Qed.

Lemma run_fallback_budget (evs : list Event) :
  forall (s s' : State) (tr : Trace),
    run s evs = Done (s', tr) ->
    (fallback_count tr + (if armed s' then 1 else 0)
     <= fallback_grants evs + (if armed s then 1 else 0))%nat.
Proof.
  induction evs as [| ev evs IH]; intros s s' tr H.
  - apply run_nil in H as [-> ->]. simpl. lia.
  - apply run_cons in H as (s1 & out & tr' & Hstep & Hrun & ->).
    apply step_fallback_budget in Hstep. apply IH in Hrun.
    simpl. lia.
Qed.

Lemma new_not_armed (p : Parameters) : armed (new p) = false.
Proof. reflexivity. Qed.

(** A fallback leaves no fallback proxy behind. *)
Lemma on_close_disarms (error : Error) (env : CloseEnv) (s s' : State) (out : list Action) :
  on_close error env s = Done (s', out) -> armed s' = false.
Proof.
  intros H. open_state s; unfold armed; step_cases H; reflexivity.
Qed.

(** C1, as the code has it: the fallback re-connect of [on_close] is
    performed at most once for each fallback proxy the application grants.
    Over any life of a socket the fallbacks are at most as many as the
    [on_proxy_connection_failed] callbacks answered with a non-null fallback
    proxy; and once an [on_close] has run, the closes that follow fall back
    at most as often as the application grants a fallback proxy anew. *)
Theorem fallback_once_per_grant (p : Parameters) (evs : list Event) (s : State) (tr : Trace) :
  run (new p) evs = Done (s, tr) ->
  (fallback_count tr <= fallback_grants evs)%nat
  /\ (forall (error : Error) (env : CloseEnv) (s1 : State) (out : list Action)
        (evs2 : list Event) (s2 : State) (tr2 : Trace),
         on_close error env s = Done (s1, out) ->
         run s1 evs2 = Done (s2, tr2) ->
         (fallback_count tr2 <= fallback_grants evs2)%nat).
Proof.
  intros H. split.
  - apply run_fallback_budget in H. rewrite new_not_armed in H. lia.
  - intros error env s1 out evs2 s2 tr2 Hc Hr.
    apply on_close_disarms in Hc. apply run_fallback_budget in Hr.
    rewrite Hc in Hr. lia.
Qed.

Lemma fallback_once_per_grant_witness :
  exists (s : State) (tr : Trace),
    run (new sample_parameters) two_fallbacks = Done (s, tr)
    /\ (fallback_count tr <= fallback_grants two_fallbacks)%nat.
Proof.
  eexists. eexists. split.
  - vm_compute. reflexivity.
  - eapply proj1, (fallback_once_per_grant sample_parameters two_fallbacks).
    reflexivity.
Defined.

(** C1 as stated fails: a socket whose fallback proxy fails in its turn, and
    whose application then names another one, falls back twice. *)
Lemma fallback_twice :
  exists (s : State) (tr : Trace),
    run (new sample_parameters) two_fallbacks = Done (s, tr)
    /\ fallback_count tr = 2%nat
    /\ ~ (fallback_count tr <= 1)%nat.
Proof.
  eexists. eexists. split; [vm_compute; reflexivity |].
  split; [reflexivity | vm_compute; lia].
Qed.

(** *** The fallback re-connect *)

(** The members set together by [connect] stay together: fallback
    information is kept only while a connection identifier is. *)
Lemma step_keeps_connection_with_info (s s' : State) (ev : Event) (out : list Action) :
  step s ev = Done (s', out) ->
  (is_Some (m_fallback_info s) -> is_Some (m_proxy_id s)) ->
  is_Some (m_fallback_info s') -> is_Some (m_proxy_id s').
Proof.
  intros H Inv. open_state s; destruct ev; step_cases H;
    intros Hs; try (exact Hs); try (eexists; reflexivity);
    try (destruct Hs as [? Hs]; discriminate Hs);
    try (apply Inv; eexists; reflexivity).
Qed.

Lemma fallback_info_has_connection (evs : list Event) :
  forall (s s' : State) (tr : Trace),
    run s evs = Done (s', tr) ->
    (is_Some (m_fallback_info s) -> is_Some (m_proxy_id s)) ->
    is_Some (m_fallback_info s') -> is_Some (m_proxy_id s').
Proof.
  induction evs as [| ev evs IH]; intros s s' tr H Inv.
  - apply run_nil in H as [-> ->]. exact Inv.
  - apply run_cons in H as (s1 & out & tr' & Hstep & Hrun & ->).
    eapply IH; [exact Hrun |].
    eapply step_keeps_connection_with_info; eassumption.
Qed.

(** C2, as the code has it: when [on_close] finds fallback information with a
    non-null fallback proxy, it closes the current proxy connection, switches
    to the fallback proxy and calls [connect] again with the loop and peer of
    the fallback information and, for a timeout, what is left of the timeout
    stored there: max(0, t - elapsed) for a stored t, where elapsed is the
    time since the connect timestamp in whole microseconds, and no timeout
    when none is stored; this as long as the two differences fit the signed
    64-bit counts they are computed in.  The stored timeout is the one passed
    to [connect], replaced by that of every [set_timeout] since.  When the
    re-connect succeeds nothing reaches the application; when it fails, the
    new error goes to the application's [on_close] handler, if one is
    registered. *)
Theorem on_close_falls_back (s : State) (error : Error) (env : CloseEnv)
    (info : FallbackInfo) (fallback : OutboundProxy) (id : ConnId) :
  m_fallback_info s = Some info ->
  fi_proxy info = Some fallback ->
  m_proxy_id s = Some id ->
  in_int64 (env_close_now env - fi_connect_timestamp info) ->
  (forall t : Micros,
      fi_timeout info = Some t ->
      in_int64 (t - Z.quot (env_close_now env - fi_connect_timestamp info) 1000)) ->
  let elapsed := Z.quot (env_close_now env - fi_connect_timestamp info) 1000 in
  let budget :=
    match fi_timeout info with
    | Some t => Some (Z.max 0 (t - elapsed))
    | None => None
    end in
  let answer := env_connect (env_reconnect env) in
  let reconnect :=
    ProxyConnect fallback
      {| pcp_loop := fi_loop info;
         pcp_proto := sp_proto (m_parameters s);
         pcp_peer := fi_peer info;
         pcp_callbacks := all_shims;
         pcp_timeout := budget;
         pcp_outbound_interface := sp_outbound_interface (m_parameters s) |}
      answer in
  (exists s' : State,
      on_close error env s
      = Done (s',
              [ProxyCloseConnection (m_proxy s) id; reconnect]
              ++ match answer with
                 | Value _ => []
                 | Failure e =>
                     match cb_on_close (m_socket_callbacks s) with
                     | Some f => [AppOnClose f (cb_arg (m_socket_callbacks s)) (Some e)]
                     | None => []
                     end
                 end)
      /\ m_proxy s' = fallback
      /\ m_proxy_id s' = match answer with Value id' => Some id' | Failure _ => None end)
  /\ (forall (params : ConnectParameters) (cenv : ConnectEnv) (s0 : State) (id0 : ConnId),
        env_connect cenv = Value id0 ->
        m_proxy_id s0 = None \/ env_set_callbacks cenv = None ->
        fi_timeout <$> m_fallback_info (snd (fst (connect params cenv s0)))
        = Some (cp_timeout params))
  /\ (forall (timeout : Micros) (accepted : bool),
        exists s' : State,
          set_timeout timeout accepted s
          = Done (accepted, s', [ProxySetTimeout (m_proxy s) id timeout])
          /\ m_fallback_info s' = Some (with_fallback_timeout (Some timeout) info)).
Proof.
  intros Hi Hp Hid Hnow Hfit elapsed budget answer reconnect.
  subst elapsed budget answer reconnect.
  destruct s as [prm px pcb pid fi scb]. simpl in *. subst.
  destruct info as [l pe ts t fp]. simpl in *. subst.
  destruct env as [now [sc r cnow]]. simpl in *.
  split; [| split].
  - unfold on_close, connect, set_callbacks, propagate_close, get_callbacks,
      remaining_budget, duration_cast_Micros. simpl.
    rewrite (wrap64_id _ Hnow).
    destruct t as [t0 |]; [rewrite (wrap64_id _ (Hfit t0 eq_refl)) |];
      (destruct r as [id' | e]; simpl;
       [ eexists; split; [reflexivity |]; split; reflexivity
       | destruct (cb_on_close scb); eexists; (split; [reflexivity |]);
           split; reflexivity ]).
  - intros params cenv s0 id0 Hr Hs.
    unfold connect, set_callbacks. simpl.
    destruct (m_proxy_id s0) eqn:E; simpl.
    + destruct Hs as [Hs | Hs]; [discriminate Hs |]. rewrite Hs, Hr. reflexivity.
    + rewrite Hr. reflexivity.
  - intros timeout accepted. unfold set_timeout. simpl.
    eexists. split; reflexivity.
Qed.

Lemma on_close_falls_back_witness :
  exists s' : State,
    on_close (Some 111%nat) (closing_at 100000 (Failure 222%nat))
      (with_fallback_info
         (Some {| fi_loop := 0%nat; fi_peer := "94.140.14.14:53"%string;
                  fi_connect_timestamp := 0; fi_timeout := Some 5000000;
                  fi_proxy := Some 2%nat |})
         (with_proxy_id (Some 1%N)
            (with_socket_callbacks sample_callbacks (new sample_parameters))))
    = Done (s',
            [ProxyCloseConnection 1%nat 1%N;
             ProxyConnect 2%nat
               {| pcp_loop := 0%nat; pcp_proto := 1%nat;
                  pcp_peer := "94.140.14.14:53"%string;
                  pcp_callbacks := all_shims;
                  pcp_timeout := Some 4999900;
                  pcp_outbound_interface := 0%nat |}
               (Failure 222%nat);
             AppOnClose 12%nat 5%nat (Some 222%nat)]).
Proof.
  destruct (on_close_falls_back
              (with_fallback_info
                 (Some {| fi_loop := 0%nat; fi_peer := "94.140.14.14:53"%string;
                          fi_connect_timestamp := 0; fi_timeout := Some 5000000;
                          fi_proxy := Some 2%nat |})
                 (with_proxy_id (Some 1%N)
                    (with_socket_callbacks sample_callbacks (new sample_parameters))))
              (Some 111%nat) (closing_at 100000 (Failure 222%nat))
              _ 2%nat 1%N eq_refl eq_refl eq_refl) as [[s' [H _]] _].
  - vm_compute. split; discriminate.
  - intros t Ht. injection Ht as <-. vm_compute. split; discriminate.
  - exists s'. exact H.
Defined.

(** C2 as stated fails: after [set_timeout] the budget of the fallback
    re-connect is counted from the new timeout (5 s), not from the timeout
    that was passed to the original [connect] (1 s). *)
Lemma fallback_budget_follows_set_timeout :
  exists (s : State) (tr : Trace),
    run (new sample_parameters) retimed_fallback = Done (s, tr)
    /\ snd <$> last tr
       = Some [ProxyCloseConnection 1%nat 1%N;
               ProxyConnect 2%nat
                 {| pcp_loop := 0%nat; pcp_proto := 1%nat;
                    pcp_peer := "94.140.14.14:53"%string;
                    pcp_callbacks := all_shims;
                    pcp_timeout := Some 4999900;
                    pcp_outbound_interface := 0%nat |}
                 (Value 2%N)]
    /\ Some 4999900 <> Some (Z.max 0 (1000000 - Z.quot (100000 - 0) 1000)).
Proof.
  eexists. eexists. split; [vm_compute; reflexivity |].
  split; [reflexivity | vm_compute; congruence].
Qed.

(** *** The connection identifier *)






(** *** The fallback information *)








(** *** Proxy failure and failed connects *)

(** C5: on a proxy failure the socket calls the application's
    [on_proxy_connection_failed]; on the answer [CloseConnection] its state
    stays as it is, on the answer [Fallback] the proxy of the answer is put
    into the fallback information and nothing else changes. *)
Theorem on_proxy_connection_failed_effect (s : State) (err : Error)
    (proxy : option OutboundProxy) (info : FallbackInfo) :
  m_fallback_info s = Some info ->
  let callback :=
    AppOnProxyConnectionFailed
      (pc_on_proxy_connection_failed (m_proxied_callbacks s))
      (pc_arg (m_proxied_callbacks s)) err in
  on_proxy_connection_failed err CloseConnection s = Done (s, [callback])
  /\ on_proxy_connection_failed err (Fallback proxy) s
     = Done ({| m_parameters := m_parameters s;
                m_proxy := m_proxy s;
                m_proxied_callbacks := m_proxied_callbacks s;
                m_proxy_id := m_proxy_id s;
                m_fallback_info :=
                  Some {| fi_loop := fi_loop info;
                          fi_peer := fi_peer info;
                          fi_connect_timestamp := fi_connect_timestamp info;
                          fi_timeout := fi_timeout info;
                          fi_proxy := proxy |};
                m_socket_callbacks := m_socket_callbacks s |},
             [callback]).
Proof.
  intros Hi callback. subst callback.
  unfold on_proxy_connection_failed. rewrite Hi.
  split; reflexivity.
Qed.

Lemma on_proxy_connection_failed_effect_witness :
  exists (s : State) (tr : Trace) (info : FallbackInfo),
    run (new sample_parameters) (take 1 two_fallbacks) = Done (s, tr)
    /\ m_fallback_info s = Some info
    /\ on_proxy_connection_failed (Some 111%nat) CloseConnection s
       = Done (s, [AppOnProxyConnectionFailed 2%nat 7%nat (Some 111%nat)])
    /\ (armed <$> (fst <$> match on_proxy_connection_failed (Some 111%nat)
                                   (Fallback (Some 2%nat)) s with
                           | Done r => Some r
                           | Faulted _ => None
                           end))
       = Some true.
Proof.
  eexists. eexists. eexists. split; [vm_compute; reflexivity |].
  split; [reflexivity |].
  match goal with
  | |- context [on_proxy_connection_failed _ CloseConnection ?s] =>
      destruct (on_proxy_connection_failed_effect s (Some 111%nat) (Some 2%nat) _ eq_refl)
        as [Hc Hf]
  end.
  split; [exact Hc |]. rewrite Hf. reflexivity.
Defined.

(** C10: when the [connect] call on the proxy fails, [connect] returns the
    error of the proxy and the connection state of the socket is as before:
    [m_proxy], [m_proxy_id] and [m_fallback_info] are untouched, so an absent
    identifier stays absent and null fallback information stays null, and the
    destructor of such a socket has no connection to close.  (Of the whole
    socket only the stored callback set, which [connect] replaces before it
    calls the proxy, has changed.) *)
Theorem connect_failure_keeps_state (params : ConnectParameters) (env : ConnectEnv)
    (s s' : State) (err : Error) (out : list Action)
    (p : OutboundProxy) (pp : ProxyConnectParameters) (e : SocketError) :
  connect params env s = (err, s', out) ->
  In (ProxyConnect p pp (Failure e)) out ->
  err = Some e
  /\ s' = with_socket_callbacks (cp_callbacks params) s
  /\ m_proxy s' = m_proxy s
  /\ m_proxy_id s' = m_proxy_id s
  /\ m_fallback_info s' = m_fallback_info s
  /\ (m_proxy_id s = None -> m_fallback_info s = None ->
      m_proxy_id s' = None /\ m_fallback_info s' = None /\ destroy s' = []).
Proof.
  intros H Hin.
  assert (Hs : err = Some e /\ s' = with_socket_callbacks (cp_callbacks params) s).
  { unfold connect, set_callbacks in H. simpl in H.
    destruct (m_proxy_id s) as [id |] eqn:Eid.
    - destruct (env_set_callbacks env) as [e0 |] eqn:Esc.
      + injection H as <- <- <-. simpl in Hin.
        destruct Hin as [Hin | []]. discriminate Hin.
      + destruct (env_connect env) as [id' | e'] eqn:Er;
          injection H as <- <- <-; simpl in Hin;
          destruct Hin as [Hin | [Hin | []]]; try discriminate Hin.
        injection Hin as _ _ <-. split; reflexivity.
    - destruct (env_connect env) as [id' | e'] eqn:Er;
        injection H as <- <- <-; simpl in Hin;
        destruct Hin as [Hin | []]; try discriminate Hin.
      injection Hin as _ _ <-. split; reflexivity. }
  destruct Hs as [-> ->]. simpl.
  do 5 (split; [reflexivity |]).
  intros Hid Hfi. unfold destroy. simpl. rewrite Hid.
  split; [reflexivity | split; [exact Hfi | reflexivity]].
Qed.

Lemma connect_failure_keeps_state_witness :
  fst (fst (connect (sample_connect (Some 1000000)) (answering (Failure 222%nat) 0)
              (new sample_parameters)))
  = Some 222%nat
  /\ m_proxy_id (snd (fst (connect (sample_connect (Some 1000000))
                             (answering (Failure 222%nat) 0) (new sample_parameters))))
     = None.
Proof.
  destruct (connect (sample_connect (Some 1000000)) (answering (Failure 222%nat) 0)
              (new sample_parameters)) as [[err s'] out] eqn:E.
  destruct (connect_failure_keeps_state _ _ _ _ _ _ 1%nat
              {| pcp_loop := 0%nat; pcp_proto := 1%nat;
                 pcp_peer := "94.140.14.14:53"%string;
                 pcp_callbacks := all_shims;
                 pcp_timeout := Some 1000000;
                 pcp_outbound_interface := 0%nat |}
              222%nat E) as (He & _ & _ & Hid & _).
  - vm_compute in E. injection E as _ _ <-. left. reflexivity.
  - simpl. split; [exact He | rewrite Hid; reflexivity].
Defined.

End ProxiedSocketFacts.

(** * Further properties of the code *)

(** ** Upstream, over a series of exchanges *)

Section UpstreamSeries.
Import Upstream.

Lemma adjust_all_between (elapsed : list Millis) :
  forall (u : State) (lo hi : Z),
    in_int64 (lo + lo) ->
    in_int64 (hi + hi) ->
    lo <= rtt u <= hi ->
    Forall (fun e => lo <= e <= hi) elapsed ->
    lo <= rtt (adjust_all elapsed u) <= hi.
Proof.
  induction elapsed as [| e rest IH]; intros u lo hi Hlo Hhi Hu Hall.
  - exact Hu.
  - inversion Hall as [| ? ? He Hrest]; subst.
    unfold adjust_all. simpl. apply IH; [exact Hlo | exact Hhi | | exact Hrest].
    pose proof (quot2_between (rtt u) e) as Hq.
    unfold rtt, adjust_rtt in *. simpl.
    rewrite wrap64_id by (unfold in_int64 in *; lia). lia.
Qed.

(** X11: The smoothed RTT of an upstream never leaves the range of the elapsed
    times it was fed, as long as twice the largest of them fits the 64-bit
    count: started at zero by the constructor, after any series of exchanges
    whose elapsed times lie in [0, hi] the RTT lies in [0, hi]. *)
Theorem rtt_stays_in_range (opts : UpstreamOptions) (config : UpstreamFactoryConfig)
    (elapsed : list Millis) (hi : Z) :
  Forall (fun e => 0 <= e <= hi) elapsed ->
  0 <= hi ->
  2 * hi <= INT64_MAX ->
  0 <= rtt (adjust_all elapsed (new opts config)) <= hi.
Proof.
  intros Hall Hhi Hfit. apply adjust_all_between; [| | | exact Hall].
  - unfold in_int64, INT64_MIN, INT64_MAX. lia.
  - unfold in_int64, INT64_MIN, INT64_MAX in *. lia.
  - unfold rtt, new. simpl. lia.
Qed.

Lemma rtt_stays_in_range_witness :
  0 <= rtt (adjust_all [40; 10; 30] (new sample_options sample_config)) <= 40.
Proof.
  apply rtt_stays_in_range.
  - repeat constructor; lia.
  - lia.
  - unfold INT64_MAX. lia.
Defined.

Lemma adjust_all_options (elapsed : list Millis) :
  forall u : State,
    options (adjust_all elapsed u) = options u
    /\ config (adjust_all elapsed u) = config u.
Proof.
  induction elapsed as [| e rest IH]; intros u.
  - split; reflexivity.
  - unfold adjust_all. simpl. destruct (IH (adjust_rtt e u)) as [Ho Hc].
    unfold adjust_all in Ho, Hc. rewrite Ho, Hc. split; reflexivity.
Qed.

(** X12: The timeout an upstream works with is never zero: the constructor
    replaces a zero and [adjust_rtt] leaves the options (and the factory
    configuration) alone, whatever the series of exchanges.  Apart from the
    timeout the options are those the upstream was constructed with. *)
Theorem timeout_never_zero (opts : UpstreamOptions) (config0 : UpstreamFactoryConfig)
    (elapsed : list Millis) :
  timeout (options (adjust_all elapsed (new opts config0))) <> 0
  /\ with_timeout (timeout opts) (options (adjust_all elapsed (new opts config0))) = opts
  /\ config (adjust_all elapsed (new opts config0)) = config0.
Proof.
  destruct (adjust_all_options elapsed (new opts config0)) as [Ho Hc].
  rewrite Ho, Hc. unfold options, config, new. simpl.
  destruct (Z.eqb (timeout opts) 0) eqn:E.
  - split; [discriminate |]. split; [| reflexivity].
    destruct opts; reflexivity.
  - apply Z.eqb_neq in E. split; [exact E |]. split; [| reflexivity].
    destruct opts; reflexivity.
Qed.

(** X13: As long as the sum of the RTT and the elapsed time fits the 64-bit
    count, each [adjust_rtt] at least halves the distance between the RTT and
    the elapsed time (up to the rounding of the division), and an elapsed
    time equal to the RTT leaves the RTT where it is. *)
Theorem adjust_rtt_halves_distance (u : State) (elapsed : Millis) :
  in_int64 (rtt u + elapsed) ->
  2 * Z.abs (rtt (adjust_rtt elapsed u) - elapsed) <= Z.abs (rtt u - elapsed) + 1
  /\ (elapsed = rtt u -> rtt (adjust_rtt elapsed u) = rtt u).
Proof.
  intros Hfit. unfold rtt, adjust_rtt in *. simpl.
  rewrite wrap64_id by exact Hfit.
  pose proof (Z.quot_rem' (m_rtt u + elapsed) 2) as Hq.
  pose proof (Z.rem_bound_abs (m_rtt u + elapsed) 2 ltac:(lia)) as Hr.
  split; [lia |].
  intros ->. replace (m_rtt u + m_rtt u) with (m_rtt u * 2) by lia.
  apply Z.quot_mul. lia.
Qed.

Lemma adjust_rtt_halves_distance_witness :
  2 * Z.abs (rtt (adjust_rtt 100 (adjust_rtt 40 (new sample_options sample_config))) - 100)
  <= Z.abs (20 - 100) + 1.
Proof.
  apply (adjust_rtt_halves_distance (adjust_rtt 40 (new sample_options sample_config)) 100).
  vm_compute. split; discriminate.
Defined.

(** X14: The sockets of an upstream are always requested with the outbound
    interface and the proxy flag given at construction, whatever happened to
    the timeout and the RTT since; the secured variant makes the same request
    and passes its extra parameters on.  Both go through the factory pointer
    of the configuration and dereference it when it is null. *)
Theorem make_socket_request (opts : UpstreamOptions) (config0 : UpstreamFactoryConfig)
    (elapsed : list Millis) (proto : nat) (S : Type) (secure : S) :
  let u := adjust_all elapsed (new opts config0) in
  make_socket proto u
  = match socket_factory config0 with
    | Some factory =>
        Done (factory,
              {| sr_proto := proto;
                 sr_outbound_interface := outbound_interface opts;
                 sr_ignore_proxy_settings := ignore_proxy_settings opts |})
    | None => Faulted NullDereference
    end
  /\ make_secured_socket proto secure u
     = obind (make_socket proto u) (fun r => Done (r, secure)).
Proof.
  intros u. subst u.
  destruct (adjust_all_options elapsed (new opts config0)) as [Ho Hc].
  unfold options, config in Ho, Hc.
  unfold make_socket, make_secured_socket. rewrite Ho, Hc.
  unfold new. simpl.
  split.
  - destruct (socket_factory config0); [| reflexivity].
    destruct (Z.eqb (timeout opts) 0); reflexivity.
  - destruct (socket_factory config0); reflexivity.
Qed.

(** X15: Different error codes have different messages, for the errors of [init]
    and for those of the factory. *)
Theorem error_messages_distinct (e1 e2 : InitError) (c1 c2 : UpstreamCreateError) :
  e1 <> e2 ->
  c1 <> c2 ->
  ErrorCodeToString_InitError e1 <> ErrorCodeToString_InitError e2
  /\ ErrorCodeToString_UpstreamCreateError c1 <> ErrorCodeToString_UpstreamCreateError c2.
Proof.
  intros He Hc. split.
  - destruct e1, e2; try (exfalso; apply He; reflexivity); simpl; discriminate.
  - destruct c1, c2; try (exfalso; apply Hc; reflexivity); simpl; discriminate.
Qed.

Lemma error_messages_distinct_witness :
  ErrorCodeToString_InitError AE_EMPTY_SERVER_NAME
  <> ErrorCodeToString_InitError AE_EMPTY_BOOTSTRAP
  /\ ErrorCodeToString_UpstreamCreateError AE_INVALID_URL
     <> ErrorCodeToString_UpstreamCreateError AE_INIT_FAILED.
Proof.
  apply (error_messages_distinct AE_EMPTY_SERVER_NAME AE_EMPTY_BOOTSTRAP
           AE_INVALID_URL AE_INIT_FAILED); discriminate.
Defined.

End UpstreamSeries.

(** ** ProxiedSocket, over whole lives *)

Section ProxiedSocketLives.
Import ProxiedSocket.

Ltac unfold_members :=
  unfold step, on_close, connect, set_callbacks, send, set_timeout,
    on_proxy_connection_failed, on_connected, on_read,
    on_successful_proxy_connection, propagate_close, get_callbacks, obind in *.

Ltac split_tests :=
  repeat match goal with
         | H : Faulted _ = Done _ |- _ => discriminate H
         | H : context [match ?x with _ => _ end] |- _ =>
             destruct x eqn:?; simpl in H; try discriminate H
         | H : Done _ = Done _ |- _ => injection H as H; subst
         | H : (_, _) = (_, _) |- _ => injection H as H; subst
         end.

Ltac step_cases H :=
  unfold_members; simpl in H; split_tests; subst; simpl in *.

Ltac open_state s :=
  let fi := fresh "fi" in
  let pid := fresh "pid" in
  destruct s as [? ? ? pid fi ?];
  destruct fi as [[? ? ? ? [? |]] |];
  destruct pid as [? |].

(** X1: In a socket reached from its constructor [on_close] finds a connection
    identifier whenever it finds a fallback proxy: it never runs into the
    [value()] of an empty optional, whatever the error and the answers. *)
Theorem on_close_never_faults (p : Parameters) (evs : list Event) (s : State) (tr : Trace)
    (error : Error) (env : CloseEnv) :
  run (new p) evs = Done (s, tr) ->
  exists (s' : State) (out : list Action), on_close error env s = Done (s', out).
Proof.
  intros H.
  pose proof (fallback_info_has_connection evs _ _ _ H) as Inv.
  assert (Hnew : is_Some (m_fallback_info (new p)) -> is_Some (m_proxy_id (new p))).
  { simpl. intros [x Hx]. discriminate Hx. }
  specialize (Inv Hnew). clear H Hnew.
  open_state s; simpl in Inv; unfold_members; simpl;
    try (destruct (Inv ltac:(eexists; reflexivity)) as [? Hx]; discriminate Hx);
    repeat match goal with
           | |- context [match ?x with _ => _ end] => destruct x eqn:?; simpl
           end;
    eexists; eexists; reflexivity.
Qed.

Lemma on_close_never_faults_witness :
  exists (s' : State) (out : list Action),
    on_close (Some 111%nat) (closing_at 300000 (Failure 222%nat))
      (with_fallback_info
         (Some {| fi_loop := 0%nat; fi_peer := "94.140.14.14:53"%string;
                  fi_connect_timestamp := 0; fi_timeout := Some 1000000;
                  fi_proxy := Some 2%nat |})
         (with_proxy_id (Some 1%N)
            (with_socket_callbacks sample_callbacks (new sample_parameters))))
    = Done (s', out).
Proof.
  eapply (on_close_never_faults sample_parameters (take 2 two_fallbacks)).
  reflexivity.
Defined.

Lemma calls_name_live_app (a b : list Action) :
  forall live : option (OutboundProxy * ConnId),
    calls_name_live live (a ++ b)
    = calls_name_live live a && calls_name_live (fold_left track_binding a live) b.
Proof.
  induction a as [| x a IH]; intros live; simpl.
  - reflexivity.
  - rewrite IH. rewrite andb_assoc. reflexivity.
Qed.

Lemma step_names_live (s s' : State) (ev : Event) (out : list Action) :
  step s ev = Done (s', out) ->
  calls_name_live (binding s) out = true
  /\ fold_left track_binding out (binding s) = binding s'.
Proof.
  intros H. open_state s; destruct ev; unfold binding; step_cases H;
    rewrite ?Nat.eqb_refl, ?N.eqb_refl; split; reflexivity.
Qed.

Lemma run_names_live (evs : list Event) :
  forall (s s' : State) (tr : Trace),
    run s evs = Done (s', tr) ->
    calls_name_live (binding s) (actions tr) = true
    /\ fold_left track_binding (actions tr) (binding s) = binding s'.
Proof.
  induction evs as [| ev evs IH]; intros s s' tr H.
  - apply run_nil in H as [-> ->]. split; reflexivity.
  - apply run_cons in H as (s1 & out & tr' & Hstep & Hrun & ->).
    apply step_names_live in Hstep as [Hc Hb].
    apply IH in Hrun as [Hc' Hb'].
    unfold actions in *. simpl.
    rewrite calls_name_live_app, fold_left_app, Hb, Hc, Hc', Hb'.
    split; reflexivity.
Qed.

(** X2: Over the whole life of a socket, destructor included, every call that
    names a connection ([send], [set_timeout], [set_callbacks],
    [close_connection]) goes to the proxy that issued the connection most
    recently and names that connection, which has not been closed before: the
    socket never uses a stale identifier and never closes a connection twice. *)
Theorem calls_use_live_connection (p : Parameters) (evs : list Event)
    (s : State) (tr : Trace) :
  run (new p) evs = Done (s, tr) ->
  calls_name_live None (actions tr ++ destroy s) = true.
Proof.
  intros H. apply run_names_live in H as [Hc Hb].
  change (binding (new p)) with (@None (OutboundProxy * ConnId)) in *.
  rewrite calls_name_live_app, Hc, Hb. simpl.
  unfold destroy, binding.
  destruct (m_proxy_id s); simpl; [| reflexivity].
  rewrite Nat.eqb_refl, N.eqb_refl. reflexivity.
Qed.

Lemma calls_use_live_connection_witness :
  exists (s : State) (tr : Trace),
    run (new sample_parameters) two_fallbacks = Done (s, tr)
    /\ calls_name_live None (actions tr ++ destroy s) = true
    /\ destroy s = [ProxyCloseConnection 3%nat 3%N].
Proof.
  eexists. eexists. split; [vm_compute; reflexivity |].
  split; [| reflexivity].
  apply (calls_use_live_connection sample_parameters two_fallbacks). reflexivity.
Defined.

(** *** What stays put *)

Lemma step_frame (s s' : State) (ev : Event) (out : list Action) :
  step s ev = Done (s', out) ->
  m_parameters s' = m_parameters s
  /\ m_proxied_callbacks s' = m_proxied_callbacks s
  /\ m_socket_callbacks s' = track_callbacks (m_socket_callbacks s) ev
  /\ (fell_back out = false -> m_proxy s' = m_proxy s).
Proof.
  intros H. open_state s; destruct ev; unfold fell_back; step_cases H;
    (split; [reflexivity |]); (split; [reflexivity |]); (split; [reflexivity |]);
    intros Hf; first [discriminate Hf | reflexivity].
Qed.

Lemma run_frame (evs : list Event) :
  forall (s s' : State) (tr : Trace),
    run s evs = Done (s', tr) ->
    m_parameters s' = m_parameters s
    /\ m_proxied_callbacks s' = m_proxied_callbacks s
    /\ m_socket_callbacks s' = fold_left track_callbacks evs (m_socket_callbacks s)
    /\ (fallback_count tr = 0%nat -> m_proxy s' = m_proxy s).
Proof.
  induction evs as [| ev evs IH]; intros s s' tr H.
  - apply run_nil in H as [-> ->]. repeat split; reflexivity.
  - apply run_cons in H as (s1 & out & tr' & Hstep & Hrun & ->).
    apply step_frame in Hstep as (Hp & Hc & Hs & Hx).
    apply IH in Hrun as (Hp' & Hc' & Hs' & Hx').
    rewrite Hp', Hc', Hs', Hp, Hc, Hs. simpl.
    repeat split; try reflexivity.
    destruct (fell_back out); simpl; intros Hn; [discriminate Hn |].
    rewrite Hx' by exact Hn. apply Hx. reflexivity.
Qed.

(** X3: A socket that has not fallen back still talks to the proxy it was
    constructed with; and no event ever changes its socket parameters or its
    policy callbacks. *)
Theorem proxy_kept_without_fallback (p : Parameters) (evs : list Event)
    (s : State) (tr : Trace) :
  run (new p) evs = Done (s, tr) ->
  fallback_count tr = 0%nat ->
  m_proxy s = p_outbound_proxy p
  /\ m_parameters s = p_socket_parameters p
  /\ m_proxied_callbacks s = p_callbacks p.
Proof.
  intros H Hn. apply run_frame in H as (Hp & Hc & _ & Hx).
  rewrite Hp, Hc, (Hx Hn). repeat split; reflexivity.
Qed.

Lemma proxy_kept_without_fallback_witness :
  exists (s : State) (tr : Trace),
    run (new sample_parameters) connected_then_closed = Done (s, tr)
    /\ m_proxy s = 1%nat.
Proof.
  eexists. eexists. split; [vm_compute; reflexivity |].
  eapply proj1, (proxy_kept_without_fallback sample_parameters connected_then_closed);
    reflexivity.
Defined.

(** X4: The callbacks the socket dispatches to are always those of the latest
    [connect] or [set_callbacks] of its owner, whether or not that call
    succeeded, and a fallback does not disturb them: data read goes to the
    [on_read] handler of that set, or nowhere if it has none. *)
Theorem dispatch_uses_latest_callbacks (p : Parameters) (evs : list Event)
    (s : State) (tr : Trace) (data : Uint8View) :
  run (new p) evs = Done (s, tr) ->
  get_callbacks s = latest_callbacks evs
  /\ on_read data s
     = (s, match cb_on_read (latest_callbacks evs) with
           | Some f => [AppOnRead f (cb_arg (latest_callbacks evs)) data]
           | None => []
           end).
Proof.
  intros H. apply run_frame in H as (_ & _ & Hs & _).
  change (m_socket_callbacks (new p)) with no_callbacks in Hs.
  fold (latest_callbacks evs) in Hs.
  unfold get_callbacks, on_read, get_callbacks. rewrite Hs.
  split; [reflexivity |].
  destruct (cb_on_read (latest_callbacks evs)); reflexivity.
Qed.

Lemma dispatch_uses_latest_callbacks_witness :
  exists (s : State) (tr : Trace),
    run (new sample_parameters) two_fallbacks = Done (s, tr)
    /\ on_read [Byte.x2a] s = (s, [AppOnRead 11%nat 5%nat [Byte.x2a]]).
Proof.
  destruct (run (new sample_parameters) two_fallbacks) as [[s tr] | f] eqn:E.
  - exists s, tr. split; [reflexivity |].
    destruct (dispatch_uses_latest_callbacks sample_parameters two_fallbacks s tr
                [Byte.x2a] E) as [_ H].
    exact H.
  - vm_compute in E. discriminate E.
Defined.

(** *** Edges of the fallback protocol *)

(** Find the [connect] call among the members of a list of actions. *)
Ltac pick_connect Hin :=
  simpl in Hin;
  repeat match type of Hin with
         | _ \/ _ => destruct Hin as [Hin | Hin]; [try discriminate Hin |]
         | False => contradiction
         end.

(** X5: When the fallback [connect] fails, the socket is left without any
    connection: the old one has been closed on the old proxy, nothing is
    recorded, [get_fd] answers nothing without asking the proxy, the
    destructor closes nothing, and [send] and [set_timeout] throw. *)
Theorem failed_fallback_leaves_no_connection (s : State) (error : Error) (env : CloseEnv)
    (info : FallbackInfo) (fallback : OutboundProxy) (id : ConnId) (e : SocketError) :
  m_fallback_info s = Some info ->
  fi_proxy info = Some fallback ->
  m_proxy_id s = Some id ->
  env_connect (env_reconnect env) = Failure e ->
  exists (s' : State) (out : list Action),
    on_close error env s = Done (s', out)
    /\ In (ProxyCloseConnection (m_proxy s) id) out
    /\ m_proxy s' = fallback
    /\ m_proxy_id s' = None
    /\ m_fallback_info s' = None
    /\ destroy s' = []
    /\ (forall proxy_get_fd, get_fd proxy_get_fd s' = None)
    /\ (forall data answer, send data answer s' = Faulted BadOptionalAccess)
    /\ (forall timeout answer, set_timeout timeout answer s' = Faulted BadOptionalAccess).
Proof.
  intros Hi Hp Hid Hr.
  destruct s as [prm px pcb pid fi scb]. simpl in *. subst.
  destruct info as [l pe ts t fp]. simpl in *. subst.
  destruct env as [now [sc r cnow]]. simpl in Hr. subst r.
  unfold on_close, connect, set_callbacks, propagate_close, get_callbacks. simpl.
  destruct (cb_on_close scb); eexists; eexists; (split; [reflexivity |]);
    (split; [left; reflexivity |]); repeat split.
Qed.

Lemma failed_fallback_leaves_no_connection_witness :
  exists (s' : State) (out : list Action),
    on_close (Some 111%nat) (closing_at 100000 (Failure 222%nat))
      (with_fallback_info
         (Some {| fi_loop := 0%nat; fi_peer := "94.140.14.14:53"%string;
                  fi_connect_timestamp := 0; fi_timeout := Some 1000000;
                  fi_proxy := Some 2%nat |})
         (with_proxy_id (Some 1%N)
            (with_socket_callbacks sample_callbacks (new sample_parameters))))
    = Done (s', out)
    /\ destroy s' = [].
Proof.
  destruct (failed_fallback_leaves_no_connection
              (with_fallback_info
                 (Some {| fi_loop := 0%nat; fi_peer := "94.140.14.14:53"%string;
                          fi_connect_timestamp := 0; fi_timeout := Some 1000000;
                          fi_proxy := Some 2%nat |})
                 (with_proxy_id (Some 1%N)
                    (with_socket_callbacks sample_callbacks (new sample_parameters))))
              (Some 111%nat) (closing_at 100000 (Failure 222%nat))
              _ 2%nat 1%N 222%nat eq_refl eq_refl eq_refl eq_refl)
    as (s' & out & H & _ & _ & _ & _ & Hd & _).
  exists s', out. split; [exact H | exact Hd].
Defined.

(** X6: Once [on_connected] has run, and on a socket that never connected, a
    proxy failure that the application answers with [Fallback] goes through
    the null fallback information; the answer [CloseConnection] is harmless. *)
Theorem fallback_answer_without_info (s : State) (p : Parameters) (conn_id : N)
    (err : Error) (proxy : option OutboundProxy) :
  on_proxy_connection_failed err (Fallback proxy) (fst (on_connected conn_id s))
  = Faulted NullDereference
  /\ on_proxy_connection_failed err (Fallback proxy) (new p) = Faulted NullDereference
  /\ on_proxy_connection_failed err CloseConnection (fst (on_connected conn_id s))
     = Done (fst (on_connected conn_id s),
             [AppOnProxyConnectionFailed
                (pc_on_proxy_connection_failed (m_proxied_callbacks s))
                (pc_arg (m_proxied_callbacks s)) err]).
Proof.
  unfold on_connected, on_proxy_connection_failed, get_callbacks. simpl.
  destruct (cb_on_connected (m_socket_callbacks s)); repeat split.
Qed.

(** X7: The timeout handed to the fallback [connect] is absent exactly when none
    is stored; otherwise it is a 64-bit count that is never negative, and for
    a stored timeout that is not negative, under a clock that has not run
    backwards, it is at most the stored timeout, and the whole of it when
    less than a microsecond has passed. *)
Theorem fallback_budget_bounds (s s' : State) (error : Error) (env : CloseEnv)
    (out : list Action) (p : OutboundProxy) (pp : ProxyConnectParameters)
    (r : Result ConnId SocketError) (info : FallbackInfo) :
  on_close error env s = Done (s', out) ->
  In (ProxyConnect p pp r) out ->
  m_fallback_info s = Some info ->
  match pcp_timeout pp, fi_timeout info with
  | Some b, Some t =>
      0 <= b <= INT64_MAX
      /\ (0 <= t <= INT64_MAX ->
          0 <= env_close_now env - fi_connect_timestamp info <= INT64_MAX ->
          b <= t
          /\ (env_close_now env - fi_connect_timestamp info < 1000 -> b = t))
  | None, None => True
  | _, _ => False
  end.
Proof.
  intros H Hin Hi.
  destruct s as [prm px pcb pid fi scb]. simpl in Hi. subst fi.
  destruct info as [l pe ts t fp].
  destruct env as [now [sc cr cnow]].
  unfold on_close, connect, set_callbacks, propagate_close, get_callbacks,
    remaining_budget, duration_cast_Micros in H. simpl in H.
  assert (Hpp : pcp_timeout pp
                = match t with
                  | Some t0 =>
                      Some (Z.max 0 (wrap64 (t0 - Z.quot (wrap64 (now - ts)) 1000)))
                  | None => None
                  end).
  { destruct fp as [fb |]; [destruct pid as [id |]; [| discriminate H] |].
    - destruct cr as [id' | e']; injection H as <- <-; simpl in Hin;
        try destruct (cb_on_close scb); pick_connect Hin;
        injection Hin as _ <- _; reflexivity.
    - injection H as <- <-; destruct (cb_on_close scb); pick_connect Hin. }
  rewrite Hpp. simpl. destruct t as [t0 |]; [| exact I].
  split.
  - pose proof (wrap64_in_int64 (t0 - Z.quot (wrap64 (now - ts)) 1000)) as Hw.
    unfold in_int64, INT64_MIN, INT64_MAX in *. lia.
  - intros Ht Hd.
    rewrite (wrap64_id (now - ts)) by (unfold in_int64, INT64_MIN, INT64_MAX in *; lia).
    assert (He : 0 <= Z.quot (now - ts) 1000 <= now - ts).
    { split; [apply Z.quot_pos; lia |].
      apply Z.quot_le_upper_bound; lia. }
    rewrite wrap64_id by (unfold in_int64, INT64_MIN, INT64_MAX in *; lia).
    split; [lia |].
    intros Hsmall. rewrite Z.quot_small by lia. lia.
Qed.

Lemma fallback_budget_bounds_witness :
  0 <= 4999900 <= INT64_MAX /\ 4999900 <= 5000000.
Proof.
  pose proof (fallback_budget_bounds
                (with_fallback_info
                   (Some {| fi_loop := 0%nat; fi_peer := "94.140.14.14:53"%string;
                            fi_connect_timestamp := 0; fi_timeout := Some 5000000;
                            fi_proxy := Some 2%nat |})
                   (with_proxy_id (Some 1%N)
                      (with_socket_callbacks sample_callbacks (new sample_parameters))))
                _ (Some 111%nat) (closing_at 100000 (Value 2%N)) _ 2%nat
                {| pcp_loop := 0%nat; pcp_proto := 1%nat;
                   pcp_peer := "94.140.14.14:53"%string;
                   pcp_callbacks := all_shims;
                   pcp_timeout := Some 4999900;
                   pcp_outbound_interface := 0%nat |}
                (Value 2%N) _ eq_refl (or_intror (or_introl eq_refl)) eq_refl)
    as [H0 H1].
  split; [exact H0 |].
  apply H1; unfold INT64_MAX; simpl; lia.
Defined.

(** X8: The fallback is invisible to the application: when the proxy fails, the
    application names a fallback proxy, the connection is closed and the
    fallback [connect] succeeds, then of all this the application sees its
    own [on_proxy_connection_failed] and, once the new connection is up, one
    [on_connected]; no [on_close] reaches it, whatever error closed the first
    connection.  The socket ends up on the fallback proxy with the new
    connection and no fallback information. *)
Theorem transparent_fallback (p : Parameters) (params : ConnectParameters)
    (env1 : ConnectEnv) (id1 id2 : ConnId) (err err2 : Error) (p2 : OutboundProxy)
    (cenv : CloseEnv) (conn_id : N) :
  env_connect env1 = Value id1 ->
  env_connect (env_reconnect cenv) = Value id2 ->
  exists (s : State) (tr : Trace),
    run (new p)
      [ ApiConnect params env1;
        ProxyConnectionFailed err (Fallback (Some p2));
        ProxyClose err2 cenv;
        ProxyConnected conn_id ]
    = Done (s, tr)
    /\ app_actions (actions tr)
       = AppOnProxyConnectionFailed
           (pc_on_proxy_connection_failed (p_callbacks p)) (pc_arg (p_callbacks p)) err
         :: match cb_on_connected (cp_callbacks params) with
            | Some f => [AppOnConnected f (cb_arg (cp_callbacks params))]
            | None => []
            end
    /\ In (ProxyCloseConnection (p_outbound_proxy p) id1) (actions tr)
    /\ fallback_count tr = 1%nat
    /\ m_proxy s = p2
    /\ m_proxy_id s = Some id2
    /\ m_fallback_info s = None.
Proof.
  intros H1 H2.
  destruct p as [prm px pcb]. destruct params as [l pe cbx t].
  destruct env1 as [sc1 r1 now1]. destruct cenv as [now [sc2 r2 now2]].
  simpl in H1, H2. subst r1 r2.
  unfold run, step, obind, on_close, connect, set_callbacks, on_proxy_connection_failed,
    on_connected, get_callbacks, new. simpl.
  destruct (cb_on_connected cbx); eexists; eexists; (split; [reflexivity |]);
    simpl; (split; [reflexivity |]); (split; [auto |]); repeat split.
Qed.

Lemma transparent_fallback_witness :
  exists (s : State) (tr : Trace),
    run (new sample_parameters)
      [ ApiConnect (sample_connect (Some 1000000)) (answering (Value 1%N) 0);
        ProxyConnectionFailed (Some 111%nat) (Fallback (Some 2%nat));
        ProxyClose (Some 111%nat) (closing_at 100000 (Value 2%N));
        ProxyConnected 2%N ]
    = Done (s, tr)
    /\ app_actions (actions tr)
       = [AppOnProxyConnectionFailed 2%nat 7%nat (Some 111%nat); AppOnConnected 10%nat 5%nat].
Proof.
  destruct (transparent_fallback sample_parameters (sample_connect (Some 1000000))
              (answering (Value 1%N) 0) 1%N 2%N (Some 111%nat) (Some 111%nat) 2%nat
              (closing_at 100000 (Value 2%N)) 2%N eq_refl eq_refl)
    as (s & tr & Hrun & Happ & _).
  exists s, tr. split; [exact Hrun | exact Happ].
Defined.

(** *** Connecting again *)

(** X9: [connect] never closes anything.  A successful [connect] on a socket that
    already holds a connection records the new identifier in place of the old
    one and forgets a fallback proxy granted before; the old connection is
    not closed then and will not be closed by the destructor, which closes the
    new one only. *)
Theorem connect_replaces_without_closing (params : ConnectParameters) (env : ConnectEnv)
    (s : State) (id_new : ConnId) :
  env_set_callbacks env = None ->
  env_connect env = Value id_new ->
  exists (s' : State) (out : list Action),
    connect params env s = (None, s', out)
    /\ fell_back out = false
    /\ m_proxy_id s' = Some id_new
    /\ armed s' = false
    /\ m_proxy s' = m_proxy s
    /\ destroy s' = [ProxyCloseConnection (m_proxy s) id_new].
Proof.
  intros Hsc Hc. unfold connect, set_callbacks, fell_back, armed, destroy. simpl.
  rewrite Hsc, Hc.
  destruct (m_proxy_id s); eexists; eexists; (split; [reflexivity |]); repeat split.
Qed.

Lemma connect_replaces_without_closing_witness :
  exists (s' : State) (out : list Action),
    connect (sample_connect None) (answering (Value 9%N) 50)
      (with_proxy_id (Some 1%N) (new sample_parameters))
    = (None, s', out)
    /\ destroy s' = [ProxyCloseConnection 1%nat 9%N].
Proof.
  destruct (connect_replaces_without_closing (sample_connect None)
              (answering (Value 9%N) 50)
              (with_proxy_id (Some 1%N) (new sample_parameters)) 9%N eq_refl eq_refl)
    as (s' & out & H & _ & _ & _ & _ & Hd).
  exists s', out. split; [exact H | exact Hd].
Defined.

(** X10: When the socket holds a connection and the proxy refuses the new callback
    set, a build without assertions ([NDEBUG]) has [connect] return that
    error without calling [connect] on the proxy; the connection and the
    fallback information stay as they were, but the callbacks passed have
    already replaced the stored ones, and the proxy was offered a shim for
    each handler that is not null.  A build with assertions stops at the
    [assert(0)] of this path instead of returning.  Where the proxy does not
    refuse, the two builds do the same. *)
Theorem connect_refused_callbacks (params : ConnectParameters) (env : ConnectEnv)
    (s : State) (id : ConnId) (e : SocketError) :
  m_proxy_id s = Some id ->
  env_set_callbacks env = Some e ->
  connect params env s
  = (Some e,
     with_socket_callbacks (cp_callbacks params) s,
     [ProxySetCallbacks (m_proxy s) id
        {| px_on_successful_proxy_connection := true;
           px_on_proxy_connection_failed := true;
           px_on_connected := bool_decide (cb_on_connected (cp_callbacks params) <> None);
           px_on_read := bool_decide (cb_on_read (cp_callbacks params) <> None);
           px_on_close := bool_decide (cb_on_close (cp_callbacks params) <> None) |}])
  /\ connect_succeeded (snd (connect params env s)) = false
  /\ get_callbacks (snd (fst (connect params env s))) = cp_callbacks params
  /\ connect_asserting params env s = Faulted AssertionFailed
  /\ (forall (env' : ConnectEnv) (s0 : State),
        m_proxy_id s0 = None \/ env_set_callbacks env' = None ->
        connect_asserting params env' s0 = Done (connect params env' s0)).
Proof.
  intros Hid Hsc. unfold connect_asserting, connect, set_callbacks, get_callbacks. simpl.
  rewrite Hid, Hsc. simpl.
  split; [| split; [| split; [| split]]]; try reflexivity.
  - destruct (cb_on_connected (cp_callbacks params)),
      (cb_on_read (cp_callbacks params)), (cb_on_close (cp_callbacks params));
      reflexivity.
  - intros env' s0 Hok.
    destruct (m_proxy_id s0) as [id0 |]; [| reflexivity].
    destruct Hok as [Hok | Hok]; [discriminate Hok |].
    rewrite Hok. reflexivity.
Qed.

Lemma connect_refused_callbacks_witness :
  fst (fst (connect (sample_connect None)
              {| env_set_callbacks := Some 5%nat; env_connect := Value 9%N; env_now := 0 |}
              (with_proxy_id (Some 1%N) (new sample_parameters))))
  = Some 5%nat
  /\ connect_asserting (sample_connect None)
       {| env_set_callbacks := Some 5%nat; env_connect := Value 9%N; env_now := 0 |}
       (with_proxy_id (Some 1%N) (new sample_parameters))
     = Faulted AssertionFailed.
Proof.
  destruct (connect_refused_callbacks (sample_connect None)
              {| env_set_callbacks := Some 5%nat; env_connect := Value 9%N;
                 env_now := 0 |}
              (with_proxy_id (Some 1%N) (new sample_parameters)) 1%N 5%nat
              eq_refl eq_refl) as (H & _ & _ & Ha & _).
  split; [rewrite H; reflexivity | exact Ha].
Defined.

End ProxiedSocketLives.
